(** * ChatX client: session, connection and presence coordination

    A shallow embedding of [src/app.js] (the browser client of ChatX) and
    the properties of its connection handshake, envelope dispatch, search
    debounce and presence rendering.

    Conventions of the embedding.
    - A JavaScript value is a [value]; numbers are restricted to integers
      (the only numbers the client produces are [Date.now()] timestamps):
      [VNum n] is the Number whose value is [n].
    - The values that reach the client from outside are parsed JSON, none
      of them callable. Where the client turns one into a string (a
      template literal, [+], a text property of an element, [new Date]) the
      conversion is [JS.to_string], which throws for an object that hides
      [toString].
    - A JavaScript string is a [string] whose characters are code units
      below 256 (Latin-1); on these [String.prototype.toLowerCase] and
      [String.prototype.trim] act unit by unit.
    - A JSON text (a WebSocket frame, an HTTP body, a stored record) is
      represented by the outcome of [JSON.parse] on it, a [text].
    - The handlers run to completion one at a time (the page is single
      threaded), so each is a computation in the state-and-exception monad
      [M] over the page state, and the page is a transition system whose
      events are the browser's callbacks. *)

From Stdlib Require Import ZArith Lia Ascii String DecimalString.
From stdpp Require Import base list strings.

Set Warnings "-register-all".

Open Scope string_scope.
Open Scope Z_scope.

(** ** Strings *)

Module Str.

(** Code units that [trim] removes, within Latin-1: TAB, LF, VT, FF, CR,
    SPACE and NO-BREAK SPACE. *)
Definition is_space (c : ascii) : bool :=
  let n := nat_of_ascii c in
  ((9 <=? n) && (n <=? 13) || (n =? 32) || (n =? 160))%nat.

(** Lower-casing of one Latin-1 code unit: A-Z, and the accented capitals
    U+00C0..U+00DE except the multiplication sign U+00D7. *)
Definition lower_char (c : ascii) : ascii :=
  let n := nat_of_ascii c in
  if ((65 <=? n) && (n <=? 90)
      || (192 <=? n) && (n <=? 222) && negb (n =? 215))%nat
  then ascii_of_nat (n + 32) else c.

Fixpoint toLowerCase (s : string) : string :=
  match s with
  | EmptyString => EmptyString
  | String c s' => String (lower_char c) (toLowerCase s')
  end.

Definition is_empty (s : string) : bool :=
  match s with EmptyString => true | _ => false end.

Fixpoint trimStart (s : string) : string :=
  match s with
  | EmptyString => EmptyString
  | String c s' => if is_space c then trimStart s' else s
  end.

Fixpoint trimEnd (s : string) : string :=
  match s with
  | EmptyString => EmptyString
  | String c s' =>
      let r := trimEnd s' in
      if is_space c && is_empty r then EmptyString else String c r
  end.

Definition trim (s : string) : string := trimEnd (trimStart s).

(** [s.includes(t)]: [t] occurs in [s] as a contiguous run. *)
Fixpoint includes (s t : string) : bool :=
  String.prefix t s
  || match s with
     | EmptyString => false
     | String _ s' => includes s' t
     end.

(** [s.split('@')[0]]: the part of [s] before its first [@]. *)
Fixpoint before_at (s : string) : string :=
  match s with
  | EmptyString => EmptyString
  | String c s' => if Ascii.eqb c "@"%char then EmptyString
                   else String c (before_at s')
  end.

End Str.

(** ** JavaScript values *)

(** Arrays carry, next to their items, the named properties assigned to
    them ([me.email = ...] on a restored identity that is an array). *)
Inductive value :=
| VUndefined
| VNull
| VBool (b : bool)
| VNum (n : Z)
| VStr (s : string)
| VArr (items : list value) (own : list (string * value))
| VObj (own : list (string * value)).

(** The outcome of [JSON.parse] on a text. *)
Inductive text :=
| Unparseable
| Json (v : value).

(** The exceptions of the client: the four the platform raises here
    ([QuotaExceededError] by a [sessionStorage] that takes no more), and
    [Failure] for an [Error] the client builds itself (its message is not
    modelled). *)
Inductive exn :=
| TypeError
| InvalidStateError
| SyntaxError
| QuotaExceededError
| Failure.

Inductive outcome (A : Type) :=
| Returned (a : A)
| Threw (e : exn).
Arguments Returned {A} a.
Arguments Threw {A} e.

(** ** Numbers as strings

    [VNum n] is the Number whose value is the integer [n]. A Number is a
    binary64: from 2^53 on not every integer is one, and [Number::toString]
    prints the fewest digits that read back as the same Number, in exponent
    form from 10^21 on. *)
Module Num.

Definition decimal (n : Z) : string := NilZero.string_of_int (Z.to_int n).

(** The Number nearest to a non-negative integer (round to nearest, ties to
    even): itself below 2^53, else the nearest multiple of 2^e with a 53-bit
    quotient. *)
Definition nearest (a : Z) : Z :=
  if a <? 2 ^ 53 then a
  else
    let e := Z.log2 a - 52 in
    let q := a / 2 ^ e in
    let r := a mod 2 ^ e in
    let half := 2 ^ (e - 1) in
    let m := if r <? half then q
             else if half <? r then q + 1
             else if Z.even q then q else q + 1 in
    m * 2 ^ e.

(** Whether the decimal [c] reads back as the Number [x] (at least 2^53):
    it lies within half a step of it, the ends counting when the significand
    is even.  Below a power of two the step is half as long, so the bounds
    are taken four times over. *)
Definition reads_as (x c : Z) : bool :=
  let e := Z.log2 x - 52 in
  let m := x / 2 ^ e in
  let hi := 4 * x + 2 * 2 ^ e in
  let lo := if m =? 2 ^ 52 then 4 * x - 2 ^ e else 4 * x - 2 * 2 ^ e in
  if Z.even m then (lo <=? 4 * c) && (4 * c <=? hi)
  else (lo <? 4 * c) && (4 * c <? hi).

Definition digits_of (x : Z) : Z := Z.of_nat (String.length (decimal x)).

(** The candidate with [k] significant digits, if one reads back as [x]:
    the nearer of the two that enclose [x], the even one on a tie. *)
Definition candidate (x k : Z) : option Z :=
  let p := 10 ^ Z.max 0 (digits_of x - k) in
  let below := x / p * p in
  let above := below + p in
  match reads_as x below, reads_as x above with
  | true, true =>
      if x - below <? above - x then Some below
      else if above - x <? x - below then Some above
      else if Z.even (x / p) then Some below else Some above
  | true, false => Some below
  | false, true => Some above
  | false, false => None
  end.

Fixpoint shortest_from (x : Z) (k : Z) (fuel : nat) : Z :=
  match fuel with
  | O => x
  | S fuel' =>
      match candidate x k with
      | Some c => c
      | None => shortest_from x (k + 1) fuel'
      end
  end.

(** The decimal with the fewest significant digits that reads back as [x]. *)
Definition shortest (x : Z) : Z :=
  if x <? 2 ^ 53 then x else shortest_from x 1 17.

Fixpoint strip (l : list ascii) : list ascii :=
  match l with
  | [] => []
  | c :: rest =>
      match strip rest with
      | [] => if Ascii.eqb c "0" then [] else [c]
      | rest' => c :: rest'
      end
  end.

Definition significand (d : string) : string :=
  match strip (list_ascii_of_string d) with
  | [] => "0"
  | [c] => String c ""
  | c :: rest => String c ("." +:+ string_of_list_ascii rest)
  end.

(** [Number::toString] of a non-negative Number with an integer value: up to
    21 digits in full, beyond that in exponent form. *)
Definition print (x : Z) : string :=
  let d := decimal (shortest x) in
  let n := Z.of_nat (String.length d) in
  if n <=? 21 then d
  else significand d +:+ "e+" +:+ decimal (n - 1).

Definition to_string (n : Z) : string :=
  if n <? 0 then "-" +:+ print (nearest (- n)) else print (nearest n).

End Num.

Module JS.

Definition truthy (v : value) : bool :=
  match v with
  | VUndefined | VNull => false
  | VBool b => b
  | VNum n => negb (n =? 0)
  | VStr s => negb (Str.is_empty s)
  | VArr _ _ | VObj _ => true
  end.

(** [v === w]. Two objects are equal only when they are the same object;
    every comparison of the client has a freshly parsed operand, so two
    objects never are. *)
Definition strict_eq (v w : value) : bool :=
  match v, w with
  | VUndefined, VUndefined => true
  | VNull, VNull => true
  | VBool a, VBool b => Bool.eqb a b
  | VNum a, VNum b => a =? b
  | VStr a, VStr b => String.eqb a b
  | _, _ => false
  end.

Fixpoint assoc (k : string) (own : list (string * value)) : option value :=
  match own with
  | [] => None
  | (k', v) :: rest => if String.eqb k k' then Some v else assoc k rest
  end.

(** Assignment to a property keeps the position of an existing key and
    appends a new one. *)
Fixpoint assoc_set (k : string) (x : value) (own : list (string * value))
  : list (string * value) :=
  match own with
  | [] => [(k, x)]
  | (k', v) :: rest =>
      if String.eqb k k' then (k, x) :: rest else (k', v) :: assoc_set k x rest
  end.

(** [v.k] for the property names the client reads ([type], [email],
    [name], [text], [ts], [query], [from], [display_name]), none of which
    is inherited from a prototype. *)
Definition get (v : value) (k : string) : outcome value :=
  match v with
  | VUndefined | VNull => Threw TypeError
  | VObj own | VArr _ own => Returned (default VUndefined (assoc k own))
  | VBool _ | VNum _ | VStr _ => Returned VUndefined
  end.

(** [v.k = x] in a classic (non-strict) script: it throws on [null] and
    [undefined] and is ignored on the other primitives. *)
Definition set (v : value) (k : string) (x : value) : outcome value :=
  match v with
  | VUndefined | VNull => Threw TypeError
  | VObj own => Returned (VObj (assoc_set k x own))
  | VArr items own => Returned (VArr items (assoc_set k x own))
  | VBool _ | VNum _ | VStr _ => Returned v
  end.

Definition is_undefined (v : value) : bool :=
  match v with VUndefined => true | _ => false end.

(** A property can be read from any value but [undefined] and [null]. *)
Definition coercible (v : value) : bool :=
  match v with VUndefined | VNull => false | _ => true end.

(** [Array.isArray(v)] *)
Definition isArray (v : value) : bool :=
  match v with VArr _ _ => true | _ => false end.

(** [JSON.stringify] of an object literal, as the text it denotes:
    properties whose value is [undefined] are left out. The property
    values the client serialises are strings, timestamps and parts of
    parsed JSON, which serialise to themselves. *)
Definition JSON_stringify (v : value) : value :=
  match v with
  | VObj own => VObj (filter (fun kv => is_undefined kv.2 = false) own)
  | _ => v
  end.

Definition has_own (k : string) (own : list (string * value)) : bool :=
  match assoc k own with Some _ => true | None => false end.

(** [ToString(v)], the conversion of a template literal, of [+] with a
    string and of an assignment to a text property. No value of a parsed
    JSON is callable: an object with a [toString] of its own has neither a
    usable [toString] nor a [valueOf] that gives a primitive, and the
    conversion throws. An array is joined, [null] and [undefined] elements as
    the empty string, unless a property of its own hides [toString] or
    [join]. *)
Fixpoint to_string (v : value) : outcome string :=
  match v with
  | VUndefined => Returned "undefined"
  | VNull => Returned "null"
  | VBool true => Returned "true"
  | VBool false => Returned "false"
  | VNum n => Returned (Num.to_string n)
  | VStr s => Returned s
  | VObj own =>
      if has_own "toString" own then Threw TypeError
      else Returned "[object Object]"
  | VArr items own =>
      if has_own "toString" own then Threw TypeError
      else if has_own "join" own then Returned "[object Array]"
      else
        (fix join (l : list value) (first : bool) : outcome string :=
           match l with
           | [] => Returned ""
           | x :: rest =>
               match match x with
                     | VUndefined | VNull => Returned ""
                     | _ => to_string x
                     end with
               | Threw e => Threw e
               | Returned sx =>
                   match join rest false with
                   | Threw e => Threw e
                   | Returned sr =>
                       Returned ((if first then "" else ",") +:+ sx +:+ sr)
                   end
               end
           end) items true
  end.

(** Whether [ToString(v)] returns. [ToPrimitive(v)], which [+] and
    [new Date(v)] apply, returns for the same values: it ends in the same
    [toString]. *)
Definition convertible (v : value) : bool :=
  match to_string v with Returned _ => true | Threw _ => false end.

(** The conversion of an assignment to the [value] of an input element:
    [null] becomes the empty string. *)
Definition to_input_value (v : value) : outcome string :=
  match v with VNull => Returned "" | _ => to_string v end.

(** The conversion of an assignment to [textContent]: [null] and
    [undefined] become the empty string. *)
Definition to_textContent (v : value) : outcome string :=
  match v with VNull | VUndefined => Returned "" | _ => to_string v end.

End JS.

(** ** The page state *)

Inductive ready_state := CONNECTING | OPEN | CLOSING | CLOSED.

(** A [WebSocket] with the frames handed to the network through it. *)
Record socket := Socket { readyState : ready_state; sent : list value }.

(** A pending [setTimeout] of the search debounce: its handle, the time
    before which it cannot fire, and the query its callback captured. *)
Record timer := Timer { tid : nat; due : Z; query : string }.

(** A child of [onlineList]. A member row records the two values that
    [renderOnline] interpolates into its markup. *)
Inductive row :=
| NoContacts (textContent : string)
| MemberEntry (email name : value).

(** A child of [messagesEl], with the arguments of [addMessage]. *)
Record transcript_entry := Msg {
  msg_from : value; msg_name : value; msg_text : value; msg_ts : value;
  meFlag : bool }.

Inductive notice :=
| Alert (msg : string)
| AlertFailure (prefix : string) (e : exn).

Record state := State {
  (** the clock in milliseconds, read by [Date.now()] *)
  now : Z;
  (** [let me], the local identity *)
  me : value;
  (** [let ws]: the socket it refers to, [None] for [null] *)
  ws : option nat;
  (** every [WebSocket] created so far, oldest first *)
  sockets : list socket;
  (** the [value] of the search field, [None] when the page has none *)
  memberSearch : option string;
  (** [document.activeElement === memberSearch] *)
  searchFocused : bool;
  (** [messageInput.value] *)
  messageInput : string;
  (** the transcript *)
  messagesEl : list transcript_entry;
  (** the children of [onlineList] *)
  onlineList : list row;
  (** the [alert] dialogs shown so far *)
  alerts : list notice;
  (** [let onlineDebounce]: a timer handle, [None] for [null] *)
  onlineDebounce : option nat;
  (** the debounce timeouts neither fired nor cleared *)
  timers : list timer;
  (** the handle the next [setTimeout] returns *)
  nextTimer : nat;
  (** the filters of the [fetchAndRenderOnline] calls awaiting [GET /online] *)
  fetches : list value
}.

Definition set_now (x : Z) (s : state) : state :=
  State x (me s) (ws s) (sockets s) (memberSearch s) (searchFocused s)
    (messageInput s) (messagesEl s) (onlineList s) (alerts s)
    (onlineDebounce s) (timers s) (nextTimer s) (fetches s).

Definition set_me (x : value) (s : state) : state :=
  State (now s) x (ws s) (sockets s) (memberSearch s) (searchFocused s)
    (messageInput s) (messagesEl s) (onlineList s) (alerts s)
    (onlineDebounce s) (timers s) (nextTimer s) (fetches s).

Definition set_ws (x : option nat) (s : state) : state :=
  State (now s) (me s) x (sockets s) (memberSearch s) (searchFocused s)
    (messageInput s) (messagesEl s) (onlineList s) (alerts s)
    (onlineDebounce s) (timers s) (nextTimer s) (fetches s).

Definition set_sockets (x : list socket) (s : state) : state :=
  State (now s) (me s) (ws s) x (memberSearch s) (searchFocused s)
    (messageInput s) (messagesEl s) (onlineList s) (alerts s)
    (onlineDebounce s) (timers s) (nextTimer s) (fetches s).

Definition set_memberSearch (x : option string) (s : state) : state :=
  State (now s) (me s) (ws s) (sockets s) x (searchFocused s)
    (messageInput s) (messagesEl s) (onlineList s) (alerts s)
    (onlineDebounce s) (timers s) (nextTimer s) (fetches s).

Definition set_searchFocused (x : bool) (s : state) : state :=
  State (now s) (me s) (ws s) (sockets s) (memberSearch s) x
    (messageInput s) (messagesEl s) (onlineList s) (alerts s)
    (onlineDebounce s) (timers s) (nextTimer s) (fetches s).

Definition set_messageInput (x : string) (s : state) : state :=
  State (now s) (me s) (ws s) (sockets s) (memberSearch s) (searchFocused s)
    x (messagesEl s) (onlineList s) (alerts s) (onlineDebounce s) (timers s)
    (nextTimer s) (fetches s).

Definition set_messagesEl (x : list transcript_entry) (s : state) : state :=
  State (now s) (me s) (ws s) (sockets s) (memberSearch s) (searchFocused s)
    (messageInput s) x (onlineList s) (alerts s) (onlineDebounce s)
    (timers s) (nextTimer s) (fetches s).

Definition set_onlineList (x : list row) (s : state) : state :=
  State (now s) (me s) (ws s) (sockets s) (memberSearch s) (searchFocused s)
    (messageInput s) (messagesEl s) x (alerts s) (onlineDebounce s)
    (timers s) (nextTimer s) (fetches s).

Definition set_alerts (x : list notice) (s : state) : state :=
  State (now s) (me s) (ws s) (sockets s) (memberSearch s) (searchFocused s)
    (messageInput s) (messagesEl s) (onlineList s) x (onlineDebounce s)
    (timers s) (nextTimer s) (fetches s).

Definition set_onlineDebounce (x : option nat) (s : state) : state :=
  State (now s) (me s) (ws s) (sockets s) (memberSearch s) (searchFocused s)
    (messageInput s) (messagesEl s) (onlineList s) (alerts s) x (timers s)
    (nextTimer s) (fetches s).

Definition set_timers (x : list timer) (s : state) : state :=
  State (now s) (me s) (ws s) (sockets s) (memberSearch s) (searchFocused s)
    (messageInput s) (messagesEl s) (onlineList s) (alerts s)
    (onlineDebounce s) x (nextTimer s) (fetches s).

Definition set_nextTimer (x : nat) (s : state) : state :=
  State (now s) (me s) (ws s) (sockets s) (memberSearch s) (searchFocused s)
    (messageInput s) (messagesEl s) (onlineList s) (alerts s)
    (onlineDebounce s) (timers s) x (fetches s).

Definition set_fetches (x : list value) (s : state) : state :=
  State (now s) (me s) (ws s) (sockets s) (memberSearch s) (searchFocused s)
    (messageInput s) (messagesEl s) (onlineList s) (alerts s)
    (onlineDebounce s) (timers s) (nextTimer s) x.

(** ** Computations of a handler *)

(** A handler either returns or throws, and keeps what it did to the page
    before throwing. *)
Definition M (A : Type) : Type := state -> outcome A * state.

Definition ret {A} (a : A) : M A := fun s => (Returned a, s).

Definition bind {A B} (c : M A) (k : A -> M B) : M B :=
  fun s => match c s with
           | (Returned a, s') => k a s'
           | (Threw e, s') => (Threw e, s')
           end.

Definition throw {A} (e : exn) : M A := fun s => (Threw e, s).

Definition lift {A} (o : outcome A) : M A := fun s => (o, s).

Definition try_catch {A} (c : M A) (handler : exn -> M A) : M A :=
  fun s => match c s with
           | (Returned a, s') => (Returned a, s')
           | (Threw e, s') => handler e s'
           end.

Definition gets {A} (f : state -> A) : M A := fun s => (Returned (f s), s).

Definition modify (f : state -> state) : M unit := fun s => (Returned tt, f s).

Notation "'do' x <- c ; k" := (bind c (fun x => k))
  (at level 10, x name, c at level 100, k at level 200).
Notation "'run' c ; k" := (bind c (fun _ => k))
  (at level 10, c at level 100, k at level 200).

(** The same sequencing for the pure parts, which only return or throw. *)
Definition obind {A B} (o : outcome A) (k : A -> outcome B) : outcome B :=
  match o with
  | Returned a => k a
  | Threw e => Threw e
  end.

Notation "'get' x <- o ; k" := (obind o (fun x => k))
  (at level 10, x name, o at level 100, k at level 200).

(** The page after a handler has run; an exception that escapes a handler
    is reported on the console and the page goes on. *)
Definition after {A} (c : M A) (s : state) : state := (c s).2.

(** ** The client *)

Module App.

Definition alert (n : notice) : M unit :=
  modify (fun s => set_alerts (alerts s ++ [n]) s).

Definition JSON_parse (t : text) : outcome value :=
  match t with
  | Unparseable => Threw SyntaxError
  | Json v => Returned v
  end.

(** *** PresenceDirectory *)

(** What [fetch] and [res.json()] can come to: the request is rejected
    (the backend is unreachable), or a response arrives with its [ok] flag
    and its body. *)
Inductive http_result :=
| Rejected
| Response (ok : bool) (body : text).

(** [fetchOnline], lines 198-205, as a function of how its request ends. *)
Definition fetchOnline (r : http_result) : outcome (list value) :=
  match
    match r with
    | Rejected => Threw TypeError
    | Response ok body =>
        if negb ok then Returned []
        else
          get data <- JSON_parse body;
          Returned (if JS.isArray data
                    then match data with VArr items _ => items | _ => [] end
                    else [])
    end
  with
  | Returned l => Returned l
  | Threw _ => Returned []
  end.

Definition toLowerCase (v : value) : outcome string :=
  match v with
  | VStr s => Returned (Str.toLowerCase s)
  | _ => Threw TypeError
  end.

(** The callback of [list.filter], line 209:
    [!filter || (u.email && u.email.toLowerCase().includes(filter.toLowerCase()))]
    coerced to a boolean. *)
Definition keeps (filter u : value) : outcome bool :=
  if negb (JS.truthy filter) then Returned true
  else
    get e <- JS.get u "email";
    if negb (JS.truthy e) then Returned false
    else
      get le <- toLowerCase e;
      get lf <- toLowerCase filter;
      Returned (Str.includes le lf).

Fixpoint filter_list (p : value -> outcome bool) (l : list value)
  : outcome (list value) :=
  match l with
  | [] => Returned []
  | u :: rest =>
      get b <- p u;
      get rest' <- filter_list p rest;
      Returned (if b then u :: rest' else rest')
  end.

Definition no_match : row := NoContacts "No matching online members".

Definition appendChild (r : row) : M unit :=
  modify (fun s => set_onlineList (onlineList s ++ [r]) s).

(** The body of [filtered.forEach], lines 214-221. *)
Definition member_entry (u : value) : M unit :=
  do e <- lift (JS.get u "email");
  do _ <- lift (JS.to_string e);
  do n <- lift (JS.get u "name");
  let shown := if JS.truthy n then n else VStr "" in
  do _ <- lift (JS.to_string shown);
  appendChild (MemberEntry e shown).

Fixpoint forEach (f : value -> M unit) (l : list value) : M unit :=
  match l with
  | [] => ret tt
  | u :: rest => run f u; forEach f rest
  end.

(** [renderOnline], lines 207-223. *)
Definition renderOnline (list : list value) (filter : value) : M unit :=
  run modify (set_onlineList []);
  do filtered <- lift (filter_list (keeps filter) list);
  if (length filtered =? 0)%nat then appendChild no_match
  else forEach member_entry filtered.

(** [fetchAndRenderOnline], lines 226-229: the request is issued at the
    call; the rest runs when it settles ([settle]). *)
Definition fetchAndRenderOnline (filter : value) : M unit :=
  modify (fun s => set_fetches (fetches s ++ [filter]) s).

Definition settle (filter : value) (r : http_result) : M unit :=
  do list <- lift (fetchOnline r);
  renderOnline list filter.

(** *** ConnectionManager *)

(** [connect], lines 56-81: a new socket in state CONNECTING, to which
    [ws] refers from now on. Its listeners are [on_open] and [on_message];
    those for [close] and [error] only write to the console. *)
Definition connect : M unit :=
  modify (fun s =>
    set_ws (Some (length (sockets s)))
      (set_sockets (sockets s ++ [Socket CONNECTING []]) s)).

(** [ws.send(frame)]: a [TypeError] on [null], an [InvalidStateError]
    while the socket is connecting, the frame is handed to the network
    when it is open and discarded once it is closing or closed. *)
Definition ws_send (frame : value) : M unit :=
  fun s =>
    match ws s with
    | None => (Threw TypeError, s)
    | Some i =>
        match sockets s !! i with
        | None => (Threw TypeError, s)
        | Some k =>
            match readyState k with
            | CONNECTING => (Threw InvalidStateError, s)
            | OPEN =>
                (Returned tt,
                 set_sockets (<[i := Socket OPEN (sent k ++ [frame])]> (sockets s)) s)
            | CLOSING | CLOSED => (Returned tt, s)
            end
        end
    end.

(** [ws && ws.readyState === WebSocket.OPEN] *)
Definition ws_is_open (s : state) : bool :=
  match ws s with
  | None => false
  | Some i =>
      match sockets s !! i with
      | Some (Socket OPEN _) => true
      | _ => false
      end
  end.

Definition me_get (k : string) : M value :=
  do m <- gets me; lift (JS.get m k).

Definition me_set (k : string) (x : value) : M unit :=
  do m <- gets me;
  do m' <- lift (JS.set m k x);
  modify (set_me m').

Definition join_envelope (e n : value) (t : Z) : value :=
  VObj [("type", VStr "join"); ("email", e); ("name", n); ("ts", VNum t)].

(** The [open] listener, lines 58-64. It sends on [ws], the variable, not
    on the socket that opened. *)
Definition on_open : M unit :=
  do e <- me_get "email";
  do n <- me_get "name";
  do t <- gets now;
  run ws_send (JS.JSON_stringify (join_envelope e n t));
  fetchAndRenderOnline VUndefined.

(** [addMessage], lines 45-54. The texts of the entry are built before
    the entry is appended: line 49 converts the name shown and, in
    [new Date(ts)], takes the primitive of the time, line 50 converts the
    text. A value that has no string leaves the transcript as it was. *)
Definition addMessage (from name text ts : value) (flag : bool) : M unit :=
  do _ <- lift (JS.to_string (if JS.truthy name then name else from));
  do _ <- lift (JS.to_string ts);
  do _ <- lift (JS.to_textContent text);
  modify (fun s => set_messagesEl (messagesEl s ++ [Msg from name text ts flag]) s).

(** The [message] listener, lines 65-78. *)
Definition on_message (frame : text) : M unit :=
  try_catch
    (do data <- lift (JSON_parse frame);
     do ty <- lift (JS.get data "type");
     if JS.strict_eq ty (VStr "message") then
       do e <- lift (JS.get data "email");
       do n <- lift (JS.get data "name");
       do tx <- lift (JS.get data "text");
       do ts <- lift (JS.get data "ts");
       do mine <- me_get "email";
       addMessage e n tx ts (JS.strict_eq e mine)
     else if JS.strict_eq ty (VStr "search") then
       do from <- lift (JS.get data "from");
       do mine <- me_get "email";
       if negb (JS.strict_eq from mine) then
         do field <- gets memberSearch;
         match field with
         | None => ret tt
         | Some _ =>
             do q <- lift (JS.get data "query");
             do shown <- lift (JS.to_input_value q);
             run modify (set_memberSearch (Some shown));
             fetchAndRenderOnline q
         end
       else ret tt
     else ret tt)
    (fun _ => ret tt).

(** *** SearchCoordinator *)

Definition clearTimeout (id : nat) : M unit :=
  modify (fun s => set_timers (filter (fun t => tid t <> id) (timers s)) s).

Definition setTimeout (v : string) (delay : Z) : M nat :=
  fun s =>
    (Returned (nextTimer s),
     set_nextTimer (S (nextTimer s))
       (set_timers (timers s ++ [Timer (nextTimer s) (now s + delay) v]) s)).

Definition search_envelope (v : string) (e : value) : value :=
  VObj [("type", VStr "search"); ("query", VStr v); ("from", e)].

(** The callback of the debounce timeout, lines 235-245, with the [v] it
    captured. *)
Definition debounced (v : string) : M unit :=
  do is_open <- gets ws_is_open;
  run (if is_open then
         do e <- me_get "email";
         ws_send (JS.JSON_stringify (search_envelope v e))
       else ret tt);
  fetchAndRenderOnline (VStr v).

(** The [input] listener of the search field, lines 232-246, with
    [e.target.value]. A handle is a positive number, tested for truth. *)
Definition on_search_input (raw : string) : M unit :=
  let v := Str.trim raw in
  do h <- gets onlineDebounce;
  run (match h with
       | Some id => if (id =? 0)%nat then ret tt else clearTimeout id
       | None => ret tt
       end);
  do id <- setTimeout v 180;
  modify (set_onlineDebounce (Some id)).

(** The [focus] listener of the search field, line 248. *)
Definition on_search_focus : M unit :=
  do field <- gets memberSearch;
  match field with
  | None => ret tt
  | Some current => fetchAndRenderOnline (VStr (Str.trim current))
  end.

(** The periodic refresh, lines 268-271. *)
Definition on_interval : M unit :=
  do field <- gets memberSearch;
  do focused <- gets searchFocused;
  match field with
  | None => ret tt
  | Some current =>
      if focused then ret tt
      else fetchAndRenderOnline (VStr (Str.trim current))
  end.

(** *** Composer *)

Definition message_envelope (e n : value) (text : string) (t : Z) : value :=
  VObj [("type", VStr "message"); ("email", e); ("name", n);
        ("text", VStr text); ("ts", VNum t)].

(** The [submit] listener, lines 251-264. *)
Definition on_submit : M unit :=
  do e <- me_get "email";
  if negb (JS.truthy e) then alert (Alert "Please login first")
  else
    do raw <- gets messageInput;
    let text := Str.trim raw in
    if Str.is_empty text then ret tt
    else
      do n <- me_get "name";
      do t <- gets now;
      let payload := message_envelope e n text t in
      do is_open <- gets ws_is_open;
      run (if is_open then ws_send (JS.JSON_stringify payload)
           else alert (Alert "Not connected to server"));
      modify (set_messageInput "").

(** The [click] listener of a member row, lines 216-220, with the
    [u.email] of the row. *)
Definition on_member_click (e : value) : M unit :=
  run modify (set_searchFocused false);
  do shown <- lift (JS.to_string e);
  modify (set_messageInput ("@" +:+ shown +:+ " ")).

(** *** SessionStore *)

(** How the request of [POST /login] ends: rejected, or a response with
    its [ok] flag, whether its content type is JSON, and its body. *)
Inductive login_reply :=
| LoginRejected
| LoginResponse (ok json : bool) (body : text).

(** What [throw new Error(errMsg)] raises, lines 124-127 and 171-174, with
    [errMsg] the [error] or the [message] of the reply when one is truthy:
    [new Error] converts its message to a string. *)
Definition refusal (data : value) : exn :=
  let pick k := match JS.get data k with Returned v => v | Threw _ => VUndefined end in
  let named := if JS.truthy data
               then (if JS.truthy (pick "error") then pick "error" else pick "message")
               else VUndefined in
  if JS.truthy named
  then match JS.to_string named with Returned _ => Failure | Threw e => e end
  else Failure.

Definition split_at (v : value) : outcome value :=
  match v with
  | VStr s => Returned (VStr (Str.before_at s))
  | _ => Threw TypeError
  end.

(** The [click] listener of the login button, lines 144-189. The page
    state is read and written only after the last [await], so the
    listener is run as one step when the request has ended. The persisted
    record is read once, at [boot]; of writing it, line 181, only whether
    [sessionStorage] takes the record is modelled, [stored]. *)
Definition on_login (email_in password : string) (reply : login_reply)
  (stored : bool) : M unit :=
  let email := Str.trim email_in in
  if Str.is_empty email || Str.is_empty password
  then alert (Alert "Please provide both email and password")
  else
    try_catch
      (do data <- lift
           match reply with
           | LoginRejected => Threw TypeError
           | LoginResponse ok json body =>
               get data <-
                 (if json then
                    match body with
                    | Unparseable => Threw Failure
                    | Json v => Returned v
                    end
                  else if negb ok then Threw Failure
                  else Returned (VObj [("success", VBool true)]));
               if negb ok then Threw (refusal data) else Returned data
           end;
       do de <- lift (JS.get data "email");
       run me_set "email" de;
       do dn <- lift (JS.get data "display_name");
       do nm <- (if JS.truthy dn then ret dn
                 else do de' <- lift (JS.get data "email"); lift (split_at de'));
       run me_set "name" nm;
       run (if stored then ret tt else throw QuotaExceededError);
       do n <- me_get "name";
       do _ <- lift (JS.to_string n);
       do e <- me_get "email";
       do _ <- lift (JS.to_string e);
       connect)
      (fun e => alert (AlertFailure "Login failed: " e)).

(** The page as the script finds it. *)
Definition initial (t0 : Z) (field : option string) : state :=
  {| now := t0;
     me := VObj [("email", VNull); ("name", VNull)];
     ws := None;
     sockets := [];
     memberSearch := field;
     searchFocused := false;
     messageInput := "";
     messagesEl := [];
     onlineList := [];
     alerts := [];
     onlineDebounce := None;
     timers := [];
     nextTimer := 1;
     fetches := [] |}.

(** The restore at load, lines 192-195, with the stored record: [None]
    when there is none (or it is the empty string). *)
Definition restore (saved : option text) : M unit :=
  match saved with
  | None => ret tt
  | Some record =>
      try_catch
        (do m <- lift (JSON_parse record);
         run modify (set_me m);
         do n <- me_get "name";
         do _ <- lift (JS.to_string n);
         do e <- me_get "email";
         do _ <- lift (JS.to_string e);
         connect)
        (fun _ => ret tt)
  end.

Definition boot (t0 : Z) (field : option string) (saved : option text) : state :=
  after (restore saved) (initial t0 field).

End App.

(** ** The page as a transition system *)

(** What the browser can deliver to the page. Time passes between
    callbacks, never during one. *)
Inductive event :=
| Tick (d : Z)
| WsOpen (i : nat)
| WsMessage (i : nat) (frame : text)
| WsClose (i : nat)
| WsError (i : nat)
| LoginClick (email password : string) (reply : App.login_reply) (stored : bool)
| SearchInput (raw : string)
| Focus (on_search : bool)
| TimerFires (id : nat)
| IntervalFires
| FetchSettles (k : nat) (r : App.http_result)
| Submit
| MessageInput (raw : string)
| MemberClick (k : nat).

Definition pending (id : nat) (s : state) : option timer :=
  head (filter (fun t => tid t = id) (timers s)).

(** One callback, when the browser can deliver it: a socket opens once,
    while it is connecting; frames arrive on an open socket; a timeout
    fires once, not before it is due; a request settles once. *)
Definition step (e : event) (s : state) : option state :=
  match e with
  | Tick d =>
      if 0 <=? d then Some (set_now (now s + d) s) else None
  | WsOpen i =>
      match sockets s !! i with
      | Some (Socket CONNECTING out) =>
          Some (after App.on_open
                  (set_sockets (<[i := Socket OPEN out]> (sockets s)) s))
      | _ => None
      end
  | WsMessage i frame =>
      match sockets s !! i with
      | Some (Socket OPEN _) => Some (after (App.on_message frame) s)
      | _ => None
      end
  | WsClose i =>
      match sockets s !! i with
      | Some (Socket CLOSED _) | None => None
      | Some (Socket _ out) =>
          Some (set_sockets (<[i := Socket CLOSED out]> (sockets s)) s)
      end
  | WsError i =>
      match sockets s !! i with
      | Some _ => Some s
      | None => None
      end
  | LoginClick email password reply stored =>
      Some (after (App.on_login email password reply stored) s)
  | SearchInput raw =>
      match memberSearch s with
      | Some _ =>
          Some (after (App.on_search_input raw)
                  (set_memberSearch (Some raw) s))
      | None => None
      end
  | Focus true =>
      match memberSearch s with
      | Some _ => Some (after App.on_search_focus (set_searchFocused true s))
      | None => None
      end
  | Focus false => Some (set_searchFocused false s)
  | TimerFires id =>
      match pending id s with
      | Some t =>
          if due t <=? now s then
            Some (after (App.debounced (query t))
                    (set_timers (filter (fun t => tid t <> id) (timers s)) s))
          else None
      | None => None
      end
  | IntervalFires => Some (after App.on_interval s)
  | FetchSettles k r =>
      match fetches s !! k with
      | Some filter =>
          Some (after (App.settle filter r)
                  (set_fetches (delete k (fetches s)) s))
      | None => None
      end
  | Submit => Some (after App.on_submit s)
  | MessageInput raw => Some (set_messageInput raw s)
  | MemberClick k =>
      match onlineList s !! k with
      | Some (MemberEntry e _) => Some (after (App.on_member_click e) s)
      | _ => None
      end
  end.

Fixpoint steps (evs : list event) (s : state) : option state :=
  match evs with
  | [] => Some s
  | e :: rest =>
      match step e s with
      | Some s' => steps rest s'
      | None => None
      end
  end.

(** The states of the page: what the script leaves at load, and what the
    callbacks make of it. *)
Inductive reachable : state -> Prop :=
| reachable_boot t0 field saved :
    reachable (App.boot t0 field saved)
| reachable_step s e s' :
    reachable s -> step e s = Some s' -> reachable s'.

(** ** Reading frames and logs *)

Definition field (frame : value) (k : string) : value :=
  match JS.get frame k with
  | Returned v => v
  | Threw _ => VUndefined
  end.

Definition has_type (ty : string) (frame : value) : bool :=
  JS.strict_eq (field frame "type") (VStr ty).

(** A frame has a shape when its property names are exactly the given
    ones, in any order. *)
Definition has_shape (names : list string) (frame : value) : bool :=
  match frame with
  | VObj own =>
      forallb (fun k => bool_decide (k ∈ names)) own.*1
      && forallb (fun k => bool_decide (k ∈ own.*1)) names
  | _ => false
  end.

(** The frames of a type handed to the network so far, over all sockets. *)
Definition sent_of_type (ty : string) (s : state) : list value :=
  filter (fun f => has_type ty f = true) (concat (sent <$> sockets s)).

(** The log of the socket [ws] refers to. *)
Definition outbox (s : state) : list value :=
  match ws s with
  | Some i => default [] (sent <$> sockets s !! i)
  | None => []
  end.

(** ** The words of the specification *)

Module Spec.

(** The letters of Latin-1 that have two cases, each capital with its
    small form: the alphabet, and the accented letters, whose capitals are
    U+00C0..U+00DE without the multiplication sign U+00D7 and whose small
    forms stand 32 places further on. *)
Definition alphabet : list (ascii * ascii) :=
  zip (list_ascii_of_string "ABCDEFGHIJKLMNOPQRSTUVWXYZ")
      (list_ascii_of_string "abcdefghijklmnopqrstuvwxyz").

Definition accented : list (ascii * ascii) :=
  (fun n => (ascii_of_nat n, ascii_of_nat (n + 32)))
    <$> filter (fun n => n <> 215%nat) (seq 192 31).

Definition letter_cases : list (ascii * ascii) := alphabet ++ accented.

(** Two code units are the same letter, case aside, when they are equal
    or are the two cases of one letter. *)
Definition same_letter (a b : ascii) : Prop :=
  a = b \/ (a, b) ∈ letter_cases \/ (b, a) ∈ letter_cases.

Inductive same_letters : string -> string -> Prop :=
| same_empty : same_letters "" ""
| same_cons a b s t :
    same_letter a b -> same_letters s t ->
    same_letters (String a s) (String b t).

(** "Case-insensitive substring match": some run of the email reads as
    the filter, letter case aside. *)
Definition contains_ci (email filter : string) : Prop :=
  exists pre mid post,
    email = pre +:+ mid +:+ post /\ same_letters mid filter.

(** A presence entry [{email, name}] as [GET /online] lists them; its
    email is a string, or is missing. *)
Definition presence_entry (u : value) : bool :=
  match u with
  | VObj own =>
      match JS.assoc "email" own with
      | None | Some (VStr _) => true
      | Some _ => false
      end
  | _ => false
  end.

Abbreviation entries l := (Forall (fun u => presence_entry u = true) l).

(** The name a row shows, line 215, and the entries that can be listed:
    those whose shown name has a string. *)
Definition shown_name (u : value) : value :=
  if JS.truthy (field u "name") then field u "name" else VStr "".

Definition listed (u : value) : bool :=
  presence_entry u && JS.convertible (shown_name u).

Abbreviation roster l := (Forall (fun u => listed u = true) l).

Definition matches (filter : string) (u : value) : Prop :=
  exists e, field u "email" = VStr e /\ contains_ci e filter.

(** A result keeps exactly the entries with a property: it is the list
    without the others, in the same order. *)
Inductive keeps_exactly (P : value -> Prop) : list value -> list value -> Prop :=
| keeps_nil : keeps_exactly P [] []
| keeps_keep u l kept :
    P u -> keeps_exactly P l kept -> keeps_exactly P (u :: l) (u :: kept)
| keeps_drop u l kept :
    ~ P u -> keeps_exactly P l kept -> keeps_exactly P (u :: l) kept.

(** The filter argument of [render]: absent, or a string. *)
Definition filter_arg (o : option string) : value :=
  match o with
  | None => VUndefined
  | Some f => VStr f
  end.

(** The row of an entry, and the rows of a result: a row per entry, or
    the one placeholder when there is none. *)
Definition row_of (u : value) : row :=
  MemberEntry (field u "email") (shown_name u).

Definition rows (l : list value) : list row :=
  match l with
  | [] => [App.no_match]
  | _ => row_of <$> l
  end.

(** A message envelope can be shown when the name it is shown under (its
    name, or else its email), its time and its text have strings. *)
Definition displayable (data : value) : bool :=
  JS.convertible (if JS.truthy (field data "name") then field data "name"
                  else field data "email")
  && JS.convertible (field data "ts")
  && match JS.to_textContent (field data "text") with
     | Returned _ => true
     | Threw _ => false
     end.

(** A join envelope of some identity at some time, as a frame. *)
Definition is_join (frame : value) : Prop :=
  exists e n t, frame = JS.JSON_stringify (App.join_envelope e n t).

(** The search envelope as the specification writes it. *)
Definition search_shape : list string := ["type"; "query"; "fromEmail"; "ts"].

Definition join_shape : list string := ["type"; "email"; "name"; "ts"].

End Spec.

(** ** Invariants of the page *)

(** The part of the state that the connection and the debounce read and
    write. *)
Definition core (s : state) :=
  (now s, me s, ws s, sockets s, onlineDebounce s, timers s, nextTimer s).

(** The state once [ws.send(frame)] has returned: the frame is in the log
    of the socket when that socket is open. *)
Definition push (frame : value) (s : state) : state :=
  match ws s with
  | Some i =>
      match sockets s !! i with
      | Some (Socket OPEN out) =>
          set_sockets (<[i := Socket OPEN (out ++ [frame])]> (sockets s)) s
      | _ => s
      end
  | None => s
  end.

(** A socket has sent nothing while it connects, and what it sent first
    is a join envelope. *)
Definition socket_ok (k : socket) : Prop :=
  (readyState k = CONNECTING -> sent k = [])
  /\ (forall f rest, sent k = f :: rest -> Spec.is_join f).

(** What holds of the page at all times, but for the join envelope that
    is sent while a socket opens. *)
Record Wf (s : state) : Prop := {
  (** [ws] is the socket created last *)
  wf_ws : match ws s with
          | None => sockets s = []
          | Some i => length (sockets s) = S i
          end;
  (** a connection is only made for an identity that has properties *)
  wf_me : sockets s <> [] -> JS.coercible (me s) = true;
  wf_sockets : Forall socket_ok (sockets s);
  (** timer handles are positive *)
  wf_handle : forall id, onlineDebounce s = Some id -> id <> 0%nat;
  wf_next : nextTimer s <> 0%nat;
  (** the pending timeout, if any, is the one [onlineDebounce] names *)
  wf_timers : timers s = []
              \/ exists t, timers s = [t] /\ onlineDebounce s = Some (tid t)
}.

(** The socket of [ws], once open, has sent its join envelope. *)
Definition joined (s : state) : Prop :=
  forall i out,
    ws s = Some i -> sockets s !! i = Some (Socket OPEN out) -> out <> [].

Definition Inv (s : state) : Prop := Wf s /\ joined s.

(** Between two states the debounce has neither been set nor fired, and
    no search envelope was sent. *)
Definition unheard (s s' : state) : Prop :=
  now s <= now s'
  /\ timers s' = timers s
  /\ sent_of_type "search" s' = sent_of_type "search" s.

Definition is_input (e : event) : bool :=
  match e with SearchInput _ => true | _ => false end.

Definition is_fire (e : event) : bool :=
  match e with TimerFires _ => true | _ => false end.

(** An event that neither changes the search field nor is a timeout. *)
Definition calm (e : event) : bool := negb (is_input e) && negb (is_fire e).

(** The time and the text of the last change of the search field in a
    run, [acc] when there is none. *)
Fixpoint last_change (acc : option (Z * string)) (evs : list event) (s : state)
  : option (Z * string) :=
  match evs with
  | [] => acc
  | e :: rest =>
      match step e s with
      | Some s' =>
          last_change
            (match e with SearchInput raw => Some (now s, raw) | _ => acc end)
            rest s'
      | None => None
      end
  end.

(** ** Scenarios *)

(** Runs of the page used as concrete inputs: Alice logs in on a page
    without a stored record, and her connection opens. *)
Module Scenario.

Definition alice : App.login_reply :=
  App.LoginResponse true true
    (Json (VObj [("email", VStr "a@x.com"); ("display_name", VStr "Alice")])).

Definition fresh : state := App.boot 0 (Some "") None.

Definition login : list event := [LoginClick "a@x.com" "secret" alice true].

Definition connected : list event := login ++ [WsOpen 0].

(** The page after [login]: her connection is not open yet. *)
Definition joining : state :=
  after (App.on_login "a@x.com" "secret" alice true) fresh.

Definition online_socket : socket :=
  Socket OPEN
    [VObj [("type", VStr "join"); ("email", VStr "a@x.com");
           ("name", VStr "Alice"); ("ts", VNum 0)]].

(** The page after [connected], written out. *)
Definition online : state :=
  {| now := 0;
     me := VObj [("email", VStr "a@x.com"); ("name", VStr "Alice")];
     ws := Some 0%nat;
     sockets := [online_socket];
     memberSearch := Some "";
     searchFocused := false;
     messageInput := "";
     messagesEl := [];
     onlineList := [];
     alerts := [];
     onlineDebounce := None;
     timers := [];
     nextTimer := 1;
     fetches := [VUndefined] |}.

(** Five changes of the search field within 100 ms, the quiet period,
    and the timeout that is left. *)
Definition typing : list event :=
  [SearchInput "a"; Tick 25; SearchInput "al"; Tick 25; SearchInput "ali";
   Tick 25; SearchInput "alic"; Tick 25; SearchInput "alice";
   Tick 180; TimerFires 5].

(** Alice has logged in twice before any connection opened. *)
Definition twice : state :=
  after (App.on_login "a@x.com" "secret" alice true) joining.

(** A page restored from a stored record that has no email. *)
Definition anonymous : state :=
  App.boot 0 (Some "") (Some (Json (VObj [("name", VStr "Bob")]))).

End Scenario.

(** ** The rest of the client *)

Module Config.

(** What the script reads of [location]. *)
Record location := Location {
  protocol : string; hostname : string; port : string; origin : string }.

(** The function of lines 7-17. Reading [location] does not throw, so
    its [catch] is never entered. *)
Definition derived (loc : location) : string :=
  if Str.is_empty (port loc) || String.eqb (port loc) "8080"
  then origin loc
  else protocol loc +:+ "//" +:+ hostname loc +:+ ":8080".

(** [API_BASE], lines 5-17, with the value of the variable
    [CHATX_API_BASE] ([undefined] when it is not declared) and that of
    [window.__CHATX_API_BASE__]. *)
Definition API_BASE (explicit global : value) (loc : location) : value :=
  if negb (JS.is_undefined explicit) then explicit
  else if JS.truthy global then global
  else VStr (derived loc).

End Config.

Module Account.

(** The [click] listener of the register button, lines 97-141, run when
    its request has ended, as [App.on_login] is. The two forms it swaps
    on success are not part of the page state. *)
Definition on_register (email_in password displayName : string)
    (reply : App.login_reply) : M unit :=
  let email := Str.trim email_in in
  if Str.is_empty email || Str.is_empty password
  then App.alert (Alert "Please provide both email and password")
  else
    try_catch
      (do _ <- lift
           match reply with
           | App.LoginRejected => Threw TypeError
           | App.LoginResponse ok json body =>
               get data <-
                 (if json then
                    match body with
                    | Unparseable => Threw Failure
                    | Json v => Returned v
                    end
                  else if negb ok then Threw Failure
                  else Returned (VObj [("success", VBool true)]));
               if negb ok then Threw (App.refusal data) else Returned data
           end;
       App.alert (Alert "Registration successful! Please login."))
      (fun e => App.alert (AlertFailure "Registration failed: " e)).

End Account.

(** ** What the page has sent *)

(** Every frame handed to the network, over all sockets, oldest socket
    first. *)
Definition all_sent (s : state) : list value := concat (sent <$> sockets s).

Definition is_search_frame (f : value) : Prop :=
  exists v e, f = JS.JSON_stringify (App.search_envelope v e).

(** A message envelope as the Composer builds it: from an identity with
    an email, with a text that is trimmed and not empty. *)
Definition is_message_frame (f : value) : Prop :=
  exists e n text t,
    f = JS.JSON_stringify (App.message_envelope e n text t)
    /\ JS.truthy e = true /\ text <> "" /\ Str.trim text = text.

Definition outbound (f : value) : Prop :=
  Spec.is_join f \/ is_search_frame f \/ is_message_frame f.

Definition is_login (e : event) : bool :=
  match e with LoginClick _ _ _ _ => true | _ => false end.

Definition is_inbound (e : event) : bool :=
  match e with WsMessage _ _ => true | _ => false end.

(** The identity and the transcript are as they were. *)
Definition kept (s s' : state) : Prop :=
  me s' = me s /\ messagesEl s' = messagesEl s.

(** The page has no connection it could send on: [ws] is [null], or its
    socket has closed. *)
Definition offline (s : state) : Prop :=
  match ws s with
  | None => True
  | Some i => exists out, sockets s !! i = Some (Socket CLOSED out)
  end.

(** A run in which every change of the search field comes less than
    180 ms after the one before ([last] is the time of the one before the
    run), and which ends less than 180 ms after the last of them. *)
Fixpoint paced (last : Z) (evs : list event) (s : state) : bool :=
  match evs with
  | [] => now s <? last + 180
  | e :: rest =>
      match step e s with
      | Some s' =>
          match e with
          | SearchInput _ => (now s <? last + 180) && paced (now s) rest s'
          | _ => paced last rest s'
          end
      | None => false
      end
  end.

(** ** Conversions to a string *)

Section Conversions.

Example to_string_of_array :
  JS.to_string (VArr [VNum 1; VNull; VStr "a"; VArr [VBool true; VUndefined] []] [])
  = Returned "1,,a,true,".
Proof. reflexivity. Qed.

Example to_string_of_object :
  JS.to_string (VObj [("email", VStr "a@x.com")]) = Returned "[object Object]"
  /\ JS.to_string (VObj [("toString", VNum 1)]) = Threw TypeError
  /\ JS.to_string (VArr [VStr "a"; VObj [("toString", VNull)]] [])
     = Threw TypeError.
Proof. by repeat split. Qed.

Example to_string_of_numbers :
  Num.to_string 1700000000000 = "1700000000000"
  /\ Num.to_string (-42) = "-42"
  /\ Num.to_string (2 ^ 53 + 1) = "9007199254740992"
  /\ Num.to_string (2 ^ 64) = "18446744073709552000"
  /\ Num.to_string (10 ^ 21 - 1) = "1e+21"
  /\ Num.to_string (10 ^ 21) = "1e+21"
  /\ Num.to_string (2 ^ 70) = "1.1805916207174113e+21"
  /\ Num.to_string (2 ^ 1023) = "8.98846567431158e+307".
Proof. vm_compute. by repeat split. Qed.

(** A conversion to a string throws nothing but a [TypeError]. *)
Lemma to_string_throws v e : JS.to_string v = Threw e -> e = TypeError.
Proof.
  revert v e. fix IH 1. intros v e.
  destruct v as [| | b | n | s | items own | own]; simpl; try discriminate.
  - by destruct b.
  - destruct (JS.has_own "toString" own); [congruence |].
    destruct (JS.has_own "join" own); [discriminate |].
    match goal with
    | |- ?j items true = _ -> _ =>
        assert (forall l, Forall (fun x => JS.to_string x = Threw e -> e = TypeError) l ->
                  forall first, j l first = Threw e -> e = TypeError) as Hj
    end.
    { induction 1 as [| x rest Hx _ IHl]; intros first; [discriminate |].
      destruct (match x with VUndefined | VNull => Returned "" | _ => JS.to_string x end)
        as [sx | ex] eqn:Ex.
      - match goal with
        | |- match ?c with _ => _ end = _ -> _ => destruct c eqn:Er
        end; [discriminate |].
        intros [= ->]. by apply (IHl false).
      - intros [= ->]. destruct x; try discriminate Ex; by apply Hx. }
    apply Hj.
    clear Hj. induction items as [| x rest IHl]; constructor; [apply IH | apply IHl].
  - destruct (JS.has_own "toString" own); [congruence | discriminate].
Qed.

End Conversions.

(** ** Proof steps *)

(** The conversions to a string stay folded in the proofs about handlers:
    a handler only asks whether they return. *)
Arguments JS.to_string : simpl never.
Arguments JS.to_input_value : simpl never.
Arguments JS.to_textContent : simpl never.

(** Unfold the sequencing of a handler. *)
Ltac monad := unfold after, bind, ret, lift, gets, modify, try_catch, throw.

(** Split on the innermost value a handler branches on. *)
Ltac cases :=
  repeat (simpl;
          match goal with
          | |- context [match ?x with _ => _ end] =>
              lazymatch x with
              | context [match _ with _ => _ end] => fail
              | _ => destruct x eqn:?
              end
          end);
  simpl; try done.

(** ** Strings: lower case and inclusion *)

Section StringFacts.

Lemma lower_char_idem c : Str.lower_char (Str.lower_char c) = Str.lower_char c.
Proof.
  destruct c as [[] [] [] [] [] [] [] []]; reflexivity.
Qed.

Lemma all_code_units a : a ∈ (ascii_of_nat <$> seq 0 256).
Proof.
  rewrite <- (ascii_nat_embedding a). apply list_elem_of_fmap_2.
  apply elem_of_seq. pose proof (nat_ascii_bounded a). lia.
Qed.

Lemma letter_cases_test a b :
  (a, b) ∈ Spec.letter_cases
  <-> existsb (fun p => Ascii.eqb p.1 a && Ascii.eqb p.2 b) Spec.letter_cases
      = true.
Proof.
  rewrite existsb_exists, list_elem_of_In. split.
  - intros H. exists (a, b). by rewrite !Ascii.eqb_refl.
  - intros ([a' b'] & H & E). simpl in E.
    apply andb_true_iff in E as [Ea Eb].
    apply Ascii.eqb_eq in Ea, Eb. by subst.
Qed.

(** [toLowerCase] identifies exactly the code units that are the same
    letter: checked on every pair of them. *)
Lemma same_letter_lower a b :
  Spec.same_letter a b <-> Str.lower_char a = Str.lower_char b.
Proof.
  pose (test := fun x y =>
          existsb (fun p => Ascii.eqb p.1 x && Ascii.eqb p.2 y) Spec.letter_cases).
  assert (forallb (fun a => forallb (fun b =>
            Bool.eqb (Ascii.eqb a b || test a b || test b a)
                     (Ascii.eqb (Str.lower_char a) (Str.lower_char b)))
            (ascii_of_nat <$> seq 0 256)) (ascii_of_nat <$> seq 0 256) = true) as H.
  { vm_compute. reflexivity. }
  rewrite forallb_forall in H.
  specialize (H a (proj1 (list_elem_of_In _ _) (all_code_units a))).
  rewrite forallb_forall in H.
  specialize (H b (proj1 (list_elem_of_In _ _) (all_code_units b))).
  apply Bool.eqb_prop in H.
  rewrite <- Ascii.eqb_eq, <- H, !orb_true_iff, Ascii.eqb_eq.
  unfold Spec.same_letter, test. rewrite !letter_cases_test. tauto.
Qed.

Lemma same_letters_lower m f :
  Spec.same_letters m f <-> Str.toLowerCase m = Str.toLowerCase f.
Proof.
  split.
  - induction 1 as [| a b s t Hab _ IH]; [done |].
    simpl. apply same_letter_lower in Hab. congruence.
  - revert f. induction m as [| a m IH]; intros [| b f] H; simpl in H;
      try discriminate.
    + constructor.
    + injection H as Hc Hs. constructor.
      * by apply same_letter_lower.
      * by apply IH.
Qed.

Lemma toLowerCase_app s t :
  Str.toLowerCase (s +:+ t) = Str.toLowerCase s +:+ Str.toLowerCase t.
Proof. induction s as [| c s IH]; simpl; [done | by rewrite IH]. Qed.

Lemma toLowerCase_split e a b :
  Str.toLowerCase e = a +:+ b ->
  exists e1 e2, e = e1 +:+ e2 /\ Str.toLowerCase e1 = a /\ Str.toLowerCase e2 = b.
Proof.
  revert e. induction a as [| c a IH]; intros e H.
  - exists "", e. done.
  - destruct e as [| d e]; simpl in H; [discriminate |].
    injection H as Hc Hs.
    destruct (IH e Hs) as (e1 & e2 & -> & H1 & H2).
    exists (String d e1), e2. simpl. by rewrite Hc, H1.
Qed.

Lemma prefix_spec t s :
  String.prefix t s = true <-> exists post, s = t +:+ post.
Proof.
  revert s. induction t as [| c t IH]; intros s.
  - split; [by exists s | by destruct s].
  - destruct s as [| d s]; simpl.
    + split; [done | by intros [? ?]].
    + destruct (ascii_dec c d) as [-> | Hne].
      * rewrite IH. split; intros [post H]; exists post.
        -- by rewrite H.
        -- by injection H.
      * split; [done |]. intros [post H]. injection H as H _. congruence.
Qed.

Lemma includes_spec s t :
  Str.includes s t = true <-> exists pre post, s = pre +:+ t +:+ post.
Proof.
  induction s as [| c s IH]; cbn [Str.includes].
  - rewrite orb_false_r, prefix_spec. split.
    + intros [post H]. by exists "", post.
    + intros (pre & post & H). destruct pre; [by exists post | discriminate].
  - rewrite orb_true_iff, prefix_spec, IH. split.
    + intros [[post H] | (pre & post & H)].
      * by exists "", post.
      * exists (String c pre), post. simpl. by rewrite H.
    + intros (pre & post & H). destruct pre as [| d pre].
      * left. by exists post.
      * right. injection H as _ H. by exists pre, post.
Qed.

(** The test of the client is the match of the specification. *)
Lemma includes_lower_ci e f :
  Str.includes (Str.toLowerCase e) (Str.toLowerCase f) = true
  <-> Spec.contains_ci e f.
Proof.
  rewrite includes_spec. split.
  - intros (pre & post & H).
    apply toLowerCase_split in H as (e1 & e2 & -> & H1 & H2).
    apply toLowerCase_split in H2 as (mid & e3 & -> & H2 & H3).
    exists e1, mid, e3. split; [done |]. by apply same_letters_lower.
  - intros (pre & mid & post & -> & H).
    apply same_letters_lower in H.
    exists (Str.toLowerCase pre), (Str.toLowerCase post).
    by rewrite !toLowerCase_app, H.
Qed.

End StringFacts.

(** ** PresenceDirectory *)

Section Presence.

Local Open Scope list_scope.

Implicit Types (u filter : value) (l kept : list value) (s : state).


(** C8. [fetchOnline] never throws to its caller: however the request
    ends it returns a list, the empty one when the request is rejected or
    the status is not a success, and the decoded array on success. *)
Theorem fetchOnline_never_throws :
  (forall r, exists l, App.fetchOnline r = Returned l)
  /\ App.fetchOnline App.Rejected = Returned []
  /\ (forall body, App.fetchOnline (App.Response false body) = Returned [])
  /\ (forall items own,
        App.fetchOnline (App.Response true (Json (VArr items own)))
        = Returned items).
Proof.
  repeat split; try done.
  intros [| [] [| v]]; simpl; eauto.
Qed.

(** C9. When the response succeeds and its body parses to a value that
    is not an array, [fetchOnline] returns the empty list. *)
Theorem fetchOnline_not_an_array v :
  JS.isArray v = false ->
  App.fetchOnline (App.Response true (Json v)) = Returned [].
Proof. intros H. unfold App.fetchOnline. simpl. by rewrite H. Qed.

Lemma fetchOnline_not_an_array_witness :
  JS.isArray (VObj [("error", VStr "busy")]) = false
  /\ App.fetchOnline (App.Response true (Json (VObj [("error", VStr "busy")])))
     = Returned [].
Proof.
  split; [reflexivity |].
  apply (fetchOnline_not_an_array (VObj [("error", VStr "busy")])).
  reflexivity.
Defined.

Lemma keeps_falsy filter u :
  JS.truthy filter = false -> App.keeps filter u = Returned true.
Proof. intros H. unfold App.keeps. by rewrite H. Qed.

Lemma filter_list_all p l :
  (forall u, p u = Returned true) -> App.filter_list p l = Returned l.
Proof.
  intros Hp. induction l as [| u l IH]; simpl; [done |].
  by rewrite Hp, IH.
Qed.

Lemma contains_ci_empty f : Spec.contains_ci "" f -> f = "".
Proof.
  intros (pre & mid & post & H & Hs).
  destruct pre; [| discriminate]. destruct mid; [| discriminate].
  by inversion Hs.
Qed.

(** On an entry the test of line 209 returns, and decides the match. *)
Lemma keeps_entry f u :
  Spec.presence_entry u = true -> f <> "" ->
  exists b, App.keeps (VStr f) u = Returned b
            /\ (b = true <-> Spec.matches f u).
Proof.
  intros Hu Hf. destruct u as [| | | | | |own]; try discriminate.
  unfold App.keeps, Spec.matches, field. simpl in *.
  assert (Str.is_empty f = false) as -> by (by destruct f). simpl.
  destruct (JS.assoc "email" own) as [[| | | |e| |] |]; try discriminate; simpl.
  - destruct (Str.is_empty e) eqn:Ee; simpl.
    + exists false. split; [done |]. split; [done |].
      intros (e' & [= <-] & Hc). destruct e; [| discriminate].
      by apply contains_ci_empty in Hc.
    + eexists. split; [done |]. rewrite includes_lower_ci.
      split; [by eauto |]. by intros (e' & [= <-] & Hc).
  - exists false. split; [done |]. split; [done |]. by intros (e' & [=] & _).
Qed.

Lemma filter_list_entries f l :
  Spec.entries l -> f <> "" ->
  exists kept, App.filter_list (App.keeps (VStr f)) l = Returned kept
               /\ Spec.keeps_exactly (Spec.matches f) l kept
               /\ Spec.entries kept.
Proof.
  intros Hl Hf. induction Hl as [| u l Hu Hl (kept & E & K & Hk)].
  - exists []. repeat split; constructor.
  - destruct (keeps_entry f u Hu Hf) as ([] & Eb & Hb); simpl; rewrite Eb, E; simpl.
    + exists (u :: kept). repeat split; [| by constructor].
      constructor; [by apply Hb | done].
    + exists kept. repeat split; [| done].
      constructor; [| done]. intros Hm. by apply Hb in Hm.
Qed.

Lemma roster_entries l : Spec.roster l -> Spec.entries l.
Proof.
  intros Hl. eapply Forall_impl; [exact Hl |].
  intros u H. by apply andb_true_iff in H as [? _].
Qed.

Lemma keeps_exactly_Forall (P : value -> Prop) (Q : value -> Prop) l kept :
  Spec.keeps_exactly P l kept -> Forall Q l -> Forall Q kept.
Proof.
  induction 1 as [| u l kept _ _ IH | u l kept _ _ IH]; intros Hl;
    [done | |]; apply Forall_cons in Hl as [? ?]; auto.
Qed.

(** The row of an entry that can be listed. *)
Lemma member_entry_listed u s :
  Spec.listed u = true ->
  App.member_entry u s
  = (Returned tt, set_onlineList (onlineList s ++ [Spec.row_of u]) s).
Proof.
  intros Hu. apply andb_true_iff in Hu as [He Hn].
  destruct u as [| | | | | |own]; try discriminate.
  unfold JS.convertible, Spec.shown_name, field in Hn.
  unfold App.member_entry, Spec.row_of, Spec.shown_name, field,
    App.appendChild, bind, lift, modify.
  simpl in *.
  destruct (JS.assoc "email" own) as [[| | | |e| |] |]; try discriminate; simpl;
    by destruct (JS.to_string _).
Qed.

Lemma forEach_entries l s :
  Spec.roster l ->
  App.forEach App.member_entry l s
  = (Returned tt, set_onlineList (onlineList s ++ (Spec.row_of <$> l)) s).
Proof.
  intros Hl. revert s. induction Hl as [| u l Hu _ IH]; intros s; simpl.
  - rewrite app_nil_r. by destruct s.
  - unfold bind at 1. rewrite (member_entry_listed u s Hu), IH.
    simpl. by rewrite <- app_assoc.
Qed.

(** What [renderOnline] leaves in [onlineList], given what the filter
    kept. *)
Lemma renderOnline_rows l filter kept s :
  App.filter_list (App.keeps filter) l = Returned kept -> Spec.roster kept ->
  App.renderOnline l filter s = (Returned tt, set_onlineList (Spec.rows kept) s).
Proof.
  intros E Hk. unfold App.renderOnline, bind, modify, lift. rewrite E.
  destruct kept as [| u kept]; [done |].
  change (length (u :: kept) =? 0)%nat with false. cbv iota.
  by rewrite forEach_entries.
Qed.

(** What the filter keeps of a roster, for a filter that is absent or a
    string. *)
Lemma filter_list_roster l (o : option string) :
  Spec.roster l ->
  exists kept,
    App.filter_list (App.keeps (Spec.filter_arg o)) l = Returned kept
    /\ Spec.roster kept
    /\ match o with
       | None | Some EmptyString => kept = l
       | Some f => Spec.keeps_exactly (Spec.matches f) l kept
       end.
Proof.
  intros Hl. destruct o as [[| c f] |].
  - exists l. split; [| done]. apply filter_list_all. intros u. by apply keeps_falsy.
  - destruct (filter_list_entries (String c f) l (roster_entries l Hl))
      as (kept & ? & K & ?); [done |].
    exists kept. repeat split; [done | | done].
    by apply (keeps_exactly_Forall _ _ _ _ K).
  - exists l. split; [| done]. apply filter_list_all. intros u. by apply keeps_falsy.
Qed.

(** C7. [renderOnline], given entries that can be listed, keeps exactly
    those whose email contains the filter as a substring, letter case
    aside; an absent or empty filter keeps every entry; and when nothing is
    kept the list shows the single placeholder row, as [Spec.rows] has
    it. *)
Theorem renderOnline_filters l (o : option string) s :
  Spec.roster l ->
  exists kept,
    App.renderOnline l (Spec.filter_arg o) s
    = (Returned tt, set_onlineList (Spec.rows kept) s)
    /\ match o with
       | None | Some EmptyString => kept = l
       | Some f => Spec.keeps_exactly (Spec.matches f) l kept
       end
    /\ (kept = [] -> onlineList (after (App.renderOnline l (Spec.filter_arg o)) s)
                     = [NoContacts "No matching online members"]).
Proof.
  intros Hl.
  destruct (filter_list_roster l o Hl) as (kept & E & Hk & Hm).
  exists kept. unfold after.
  rewrite (renderOnline_rows l _ kept s E Hk).
  repeat split; [done |]. by intros ->.
Qed.

Lemma filter_list_skip p u l1 l2 :
  p u = Returned false ->
  App.filter_list p (l1 ++ u :: l2) = App.filter_list p (l1 ++ l2).
Proof.
  intros Hu. induction l1 as [| w l1 IH]; simpl.
  - by rewrite Hu; destruct (App.filter_list p l2).
  - by rewrite IH.
Qed.

(** C10. Among entries that can be listed, one whose email is missing or
    empty matches no filter that is not empty: [renderOnline] with such a
    filter renders the list as if the entry were not in it. With the empty
    filter every entry has its row, this one too. *)
Theorem renderOnline_drops_without_email f u l1 l2 s :
  f <> "" ->
  Spec.roster (l1 ++ u :: l2) ->
  field u "email" = VUndefined \/ field u "email" = VStr "" ->
  App.keeps (VStr f) u = Returned false
  /\ App.renderOnline (l1 ++ u :: l2) (VStr f) s
     = App.renderOnline (l1 ++ l2) (VStr f) s
  /\ onlineList (after (App.renderOnline (l1 ++ u :: l2) (VStr "")) s)
     = Spec.row_of <$> (l1 ++ u :: l2).
Proof.
  intros Hf Hl Hu.
  assert (App.keeps (VStr f) u = Returned false) as Hk.
  { pose proof (roster_entries _ Hl) as Hl'.
    apply Forall_app in Hl' as [_ Hl']. apply Forall_cons in Hl' as [Hl' _].
    destruct (keeps_entry f u Hl' Hf) as ([] & E & Hb); [| done].
    destruct (proj1 Hb eq_refl) as (e & He & Hc).
    destruct Hu as [Hu | Hu]; rewrite Hu in He; [done |].
    injection He as <-. by apply contains_ci_empty in Hc. }
  repeat split; [done | |].
  - unfold App.renderOnline, bind, modify, lift.
    by rewrite (filter_list_skip _ _ _ _ Hk).
  - unfold after.
    rewrite (renderOnline_rows _ _ (l1 ++ u :: l2)); [| | done].
    + by destruct l1.
    + apply filter_list_all. intros w. by apply keeps_falsy.
Qed.

Lemma renderOnline_drops_without_email_witness :
  let alice := VObj [("email", VStr "alice@x.com"); ("name", VStr "Alice")] in
  let ghost := VObj [("name", VStr "Ghost")] in
  let s := App.initial 0 (Some "") in
  App.keeps (VStr "al") ghost = Returned false
  /\ App.renderOnline ([alice] ++ ghost :: []) (VStr "al") s
     = App.renderOnline ([alice] ++ []) (VStr "al") s
  /\ onlineList (after (App.renderOnline ([alice] ++ ghost :: []) (VStr "")) s)
     = Spec.row_of <$> ([alice] ++ ghost :: []).
Proof.
  intros alice ghost s.
  apply (renderOnline_drops_without_email "al" ghost [alice] [] s).
  - discriminate.
  - repeat constructor.
  - left. reflexivity.
Defined.

Lemma renderOnline_filters_witness :
  let alice := VObj [("email", VStr "alice@x.com")] in
  let bob := VObj [("email", VStr "bob@x.com")] in
  let s := App.initial 0 (Some "") in
  exists kept,
    App.renderOnline [alice; bob] (VStr "AL") s
    = (Returned tt, set_onlineList (Spec.rows kept) s)
    /\ Spec.keeps_exactly (Spec.matches "AL") [alice; bob] kept
    /\ (kept = [] -> onlineList (after (App.renderOnline [alice; bob] (VStr "AL")) s)
                     = [NoContacts "No matching online members"]).
Proof.
  intros alice bob s.
  apply (renderOnline_filters [alice; bob] (Some "AL") s).
  repeat constructor.
Defined.

(** The two renderings that the specification lists as tests. *)
Example render_AL :
  onlineList
    (after (App.renderOnline
              [VObj [("email", VStr "alice@x.com")];
               VObj [("email", VStr "bob@x.com")]] (VStr "AL"))
       (App.initial 0 (Some "")))
  = [MemberEntry (VStr "alice@x.com") (VStr "")].
Proof. reflexivity. Qed.

Example render_nothing :
  onlineList (after (App.renderOnline [] (VStr "")) (App.initial 0 (Some "")))
  = [NoContacts "No matching online members"].
Proof. reflexivity. Qed.

End Presence.

(** ** Composer *)

Section Composer.

(** C4, as the client has it. A message text that is not blank,
    submitted by an identity with an email while the connection is not
    open, is reported as not delivered, no envelope is sent, and the
    message input is cleared. *)
Theorem submit_while_not_open s e :
  JS.get (me s) "email" = Returned e ->
  JS.truthy e = true ->
  Str.trim (messageInput s) <> "" ->
  App.ws_is_open s = false ->
  App.on_submit s
  = (Returned tt,
     set_messageInput ""
       (set_alerts (alerts s ++ [Alert "Not connected to server"]) s)).
Proof.
  intros He Ht Hx Ho.
  unfold App.on_submit, App.me_get, bind, gets, lift.
  rewrite He, Ht. simpl.
  destruct (Str.trim (messageInput s)) eqn:Et; [done |]. simpl.
  destruct (me s) as [| | | | | |]; try discriminate; simpl; by rewrite Ho.
Qed.

Lemma submit_while_not_open_witness :
  let s := set_messageInput "hello" Scenario.joining in
  App.on_submit s
  = (Returned tt,
     set_messageInput ""
       (set_alerts (alerts s ++ [Alert "Not connected to server"]) s)).
Proof.
  intros s.
  apply (submit_while_not_open s (VStr "a@x.com")); [reflexivity .. | | reflexivity].
  vm_compute. discriminate.
Defined.

(** C4, as stated, fails: Alice has logged in, her connection has not
    opened yet, she submits "hello"; the failure is reported and the
    input, which the claim leaves populated, is empty. *)
Lemma submit_failure_clears_input :
  let before := steps (Scenario.login ++ [MessageInput "hello"]) Scenario.fresh in
  let after_ := steps (Scenario.login ++ [MessageInput "hello"; Submit]) Scenario.fresh in
  App.ws_is_open <$> before = Some false
  /\ messageInput <$> before = Some "hello"
  /\ alerts <$> after_ = Some [Alert "Not connected to server"]
  /\ messageInput <$> after_ = Some ""
  /\ messageInput <$> after_ <> messageInput <$> before.
Proof. vm_compute. repeat split; discriminate. Qed.

End Composer.

(** ** SearchCoordinator: the envelopes *)

Section SearchEnvelopes.

Lemma has_type_get ty data k :
  has_type ty data = true -> JS.get data k = Returned (field data k).
Proof. unfold has_type, field. by destruct data. Qed.

(** C2, as the client has it. When the debounce callback runs on an open
    connection it sends one frame, [{type:"search", query, from}]: the
    sender is in the property [from], and there is neither [fromEmail]
    nor [ts]. *)
Theorem search_broadcast_shape s v i out e :
  ws s = Some i ->
  sockets s !! i = Some (Socket OPEN out) ->
  JS.get (me s) "email" = Returned e ->
  let frame := JS.JSON_stringify (App.search_envelope v e) in
  App.debounced v s
  = (Returned tt,
     set_fetches (fetches s ++ [VStr v])
       (set_sockets (<[i := Socket OPEN (out ++ [frame])]> (sockets s)) s))
  /\ field frame "type" = VStr "search"
  /\ field frame "query" = VStr v
  /\ field frame "from" = e
  /\ field frame "fromEmail" = VUndefined
  /\ field frame "ts" = VUndefined
  /\ has_shape Spec.search_shape frame = false
  /\ (JS.is_undefined e = false -> has_shape ["type"; "query"; "from"] frame = true).
Proof.
  intros Hw Hi He frame. split.
  - unfold App.debounced, App.me_get, App.ws_send, App.ws_is_open, bind, gets, lift.
    rewrite Hw, Hi. simpl. rewrite He. simpl. by rewrite Hw, Hi.
  - subst frame. destruct e; repeat split; try done.
Qed.

Lemma search_broadcast_shape_witness :
  let s := Scenario.online in
  let frame := JS.JSON_stringify (App.search_envelope "al" (VStr "a@x.com")) in
  App.debounced "al" s
  = (Returned tt,
     set_fetches (fetches s ++ [VStr "al"])
       (set_sockets (<[0%nat := Socket OPEN (sent (Scenario.online_socket) ++ [frame])]> (sockets s)) s))
  /\ field frame "type" = VStr "search"
  /\ field frame "query" = VStr "al"
  /\ field frame "from" = VStr "a@x.com"
  /\ field frame "fromEmail" = VUndefined
  /\ field frame "ts" = VUndefined
  /\ has_shape Spec.search_shape frame = false
  /\ (JS.is_undefined (VStr "a@x.com") = false
      -> has_shape ["type"; "query"; "from"] frame = true).
Proof.
  intros s.
  apply (search_broadcast_shape s "al" 0%nat
           (sent Scenario.online_socket) (VStr "a@x.com"));
    reflexivity.
Defined.

(** C2, as stated, fails: Alice types "al" into the search field of her
    connected page and the debounce fires; the frame broadcast has the
    properties [type], [query] and [from], not the shape with
    [fromEmail] and [ts]. *)
Lemma search_frame_has_no_fromEmail :
  let s := steps (Scenario.connected ++ [SearchInput "al"; Tick 180; TimerFires 1])
             Scenario.fresh in
  (last <$> (outbox <$> s))
  = Some (Some (VObj [("type", VStr "search"); ("query", VStr "al");
                      ("from", VStr "a@x.com")]))
  /\ (forall frame, last <$> (outbox <$> s) = Some (Some frame) ->
        has_shape Spec.search_shape frame = false
        /\ field frame "fromEmail" = VUndefined
        /\ field frame "ts" = VUndefined).
Proof.
  split; [reflexivity |].
  intros frame H. vm_compute in H. injection H as <-. by repeat split.
Qed.



(** Alice's page receives her own search back, then Bob's. *)
Example own_search_echo :
  step (WsMessage 0
          (Json (VObj [("type", VStr "search"); ("query", VStr "al");
                       ("from", VStr "a@x.com")])))
    Scenario.online
  = Some Scenario.online.
Proof. reflexivity. Qed.

(** Bob's search, and the list of Alice and Bob once the request it starts
    has ended: Bob's row alone. *)
Example search_of_bob_rendered :
  (fun s => (memberSearch s, onlineList s, fetches s))
    <$> steps [WsMessage 0
                 (Json (VObj [("type", VStr "search"); ("query", VStr "bo");
                              ("from", VStr "b@x.com")]));
               FetchSettles 1
                 (App.Response true
                    (Json (VArr [VObj [("email", VStr "a@x.com"); ("name", VStr "Alice")];
                                 VObj [("email", VStr "Bob@x.com"); ("name", VNull)]]
                             [])))]
          Scenario.online
  = Some (Some "bo", [MemberEntry (VStr "Bob@x.com") (VStr "")],
          [VUndefined]).
Proof. reflexivity. Qed.

(** A search whose query has no string is dropped: nothing is mirrored
    and nothing is requested. *)
Example search_without_string :
  step (WsMessage 0
          (Json (VObj [("type", VStr "search");
                       ("query", VObj [("toString", VNum 1)]);
                       ("from", VStr "b@x.com")])))
    Scenario.online
  = Some Scenario.online.
Proof. reflexivity. Qed.

Example search_of_bob :
  (fun s => (memberSearch s, fetches s))
    <$> step (WsMessage 0
                (Json (VObj [("type", VStr "search"); ("query", VStr "bo");
                             ("from", VStr "b@x.com")])))
          Scenario.online
  = Some (Some "bo", [VUndefined; VStr "bo"]).
Proof. reflexivity. Qed.

End SearchEnvelopes.

(** ** What each handler does to the core *)

Section Effects.

Local Open Scope list_scope.

Lemma forEach_core l s : core (App.forEach App.member_entry l s).2 = core s.
Proof.
  revert s. induction l as [| u l IH]; intros s; [done |].
  simpl. unfold App.member_entry, App.appendChild. monad.
  destruct (JS.get u "email"); [| done].
  destruct (JS.to_string _); [| done].
  destruct (JS.get u "name"); [| done].
  destruct (JS.to_string _); [| done].
  by rewrite IH.
Qed.

Lemma renderOnline_core l filter s :
  core (after (App.renderOnline l filter) s) = core s.
Proof.
  unfold App.renderOnline, App.appendChild. monad.
  destruct (App.filter_list _ _) as [kept |]; [| done].
  destruct (length kept =? 0)%nat; [done |].
  by rewrite forEach_core.
Qed.

Lemma settle_core filter r s : core (after (App.settle filter r) s) = core s.
Proof.
  unfold App.settle. monad.
  destruct (App.fetchOnline r) as [l |]; [| done].
  apply (renderOnline_core l filter s).
Qed.

Lemma on_message_core frame s : core (after (App.on_message frame) s) = core s.
Proof.
  unfold App.on_message, App.me_get, App.addMessage, App.fetchAndRenderOnline.
  monad. cases.
Qed.

Lemma on_member_click_core e s :
  core (after (App.on_member_click e) s) = core s.
Proof. unfold App.on_member_click. monad. cases. Qed.

Lemma on_interval_core s : core (after App.on_interval s) = core s.
Proof. unfold App.on_interval, App.fetchAndRenderOnline. monad. cases. Qed.

Lemma on_search_focus_core s : core (after App.on_search_focus s) = core s.
Proof. unfold App.on_search_focus, App.fetchAndRenderOnline. monad. cases. Qed.

End Effects.

(** ** The invariant *)

Section Invariant.

Local Open Scope list_scope.

Lemma Wf_core s s' : core s = core s' -> Wf s -> Wf s'.
Proof.
  unfold core. intros [= _ Hme Hws Hso Hod Hti Hnt] [].
  constructor; rewrite <- ?Hme, <- ?Hws, <- ?Hso, <- ?Hod, <- ?Hti, <- ?Hnt; done.
Qed.

Lemma joined_core s s' : core s = core s' -> joined s -> joined s'.
Proof.
  unfold core, joined. intros [= _ _ Hws Hso _ _ _] H.
  by rewrite <- Hws, <- Hso.
Qed.

Lemma Inv_core s s' : core s = core s' -> Inv s -> Inv s'.
Proof. intros E [? ?]. split; [by eapply Wf_core | by eapply joined_core]. Qed.

Lemma is_join_type f :
  Spec.is_join f ->
  has_type "join" f = true /\ has_type "message" f = false
  /\ has_type "search" f = false.
Proof. by intros (e & n & t & ->). Qed.

Lemma ws_send_push frame s :
  App.ws_send frame s = (Returned tt, push frame s)
  \/ exists e, App.ws_send frame s = (Threw e, s).
Proof.
  unfold App.ws_send, push.
  destruct (ws s) as [i |]; [| by eauto].
  destruct (sockets s !! i) as [[[] out] |]; eauto.
Qed.

Lemma ws_send_open frame s :
  App.ws_is_open s = true ->
  App.ws_send frame s = (Returned tt, push frame s).
Proof.
  unfold App.ws_is_open, App.ws_send, push.
  destruct (ws s) as [i |]; [| done].
  by destruct (sockets s !! i) as [[[] out] |].
Qed.

Lemma push_closed frame s : App.ws_is_open s = false -> push frame s = s.
Proof.
  unfold App.ws_is_open, push.
  destruct (ws s) as [i |]; [| done].
  by destruct (sockets s !! i) as [[[] out] |].
Qed.

(** The last socket gets the frame, the others are as they were. *)
Lemma push_open frame s :
  Wf s -> App.ws_is_open s = true ->
  exists before out,
    sockets s = before ++ [Socket OPEN out]
    /\ ws s = Some (length before)
    /\ push frame s
       = set_sockets (before ++ [Socket OPEN (out ++ [frame])]) s.
Proof.
  intros [Hws _ _ _ _ _]. unfold App.ws_is_open, push.
  destruct (ws s) as [i |]; [| done].
  destruct (sockets s !! i) as [[[] out] |] eqn:Ei; try done. intros _.
  destruct (sockets s) as [| k l _] using rev_ind; [done |].
  rewrite length_app in Hws. simpl in Hws.
  assert (i = length l) as -> by lia.
  rewrite lookup_app_r, Nat.sub_diag in Ei by done. injection Ei as ->.
  exists l, out. repeat split.
  f_equal. rewrite insert_app_r_alt, Nat.sub_diag by done. done.
Qed.

Lemma socket_ok_push out frame :
  socket_ok (Socket OPEN out) -> (out = [] -> Spec.is_join frame) ->
  socket_ok (Socket OPEN (out ++ [frame])).
Proof.
  intros [_ H] Hj. split; [done |]. simpl.
  destruct out as [| f0 out]; simpl; intros f rest [= <- <-].
  - by apply Hj.
  - by eapply H.
Qed.

Lemma Wf_push frame s :
  Wf s -> (joined s \/ Spec.is_join frame) -> Wf (push frame s).
Proof.
  intros W Hj. destruct (App.ws_is_open s) eqn:Eo.
  2: { by rewrite push_closed. }
  destruct (push_open frame s W Eo) as (before & out & Es & Ew & ->).
  destruct W as [Hws Hme Hs Hh Hn Ht].
  constructor; simpl; try done.
  - rewrite Ew. rewrite length_app. simpl. lia.
  - intros _. apply Hme. rewrite Es. by destruct before.
  - rewrite Es, Forall_app, Forall_singleton in Hs. destruct Hs as [Hb Hk].
    rewrite Forall_app, Forall_singleton. split; [done |].
    apply (socket_ok_push out frame Hk). intros ->.
    destruct Hj as [Hj | Hj]; [| done].
    exfalso. apply (Hj (length before) []); [done | | done].
    by rewrite Es, lookup_app_r, Nat.sub_diag.
Qed.

Lemma joined_push frame s : Wf s -> App.ws_is_open s = true -> joined (push frame s).
Proof.
  intros W Eo.
  destruct (push_open frame s W Eo) as (before & out & Es & Ew & ->).
  intros i out'. simpl. rewrite Ew. intros [= <-].
  rewrite lookup_app_r, Nat.sub_diag by done. intros [= <-].
  by destruct out.
Qed.

Lemma Inv_push frame s : Inv s -> Inv (push frame s).
Proof.
  intros [W J]. destruct (App.ws_is_open s) eqn:Eo.
  - split; [apply Wf_push; auto | by apply joined_push].
  - by rewrite push_closed.
Qed.

Lemma sent_of_type_push ty frame s :
  Wf s -> App.ws_is_open s = true ->
  sent_of_type ty (push frame s)
  = sent_of_type ty s ++ (if has_type ty frame then [frame] else []).
Proof.
  intros W Eo.
  destruct (push_open frame s W Eo) as (before & out & Es & Ew & ->).
  unfold sent_of_type. simpl. rewrite Es.
  rewrite !fmap_app, !concat_app. simpl. rewrite !app_nil_r.
  rewrite app_assoc, (filter_app _ (_ ++ _) [frame]). f_equal.
  rewrite filter_cons, filter_nil. by destruct (has_type ty frame).
Qed.

Lemma get_coercible v k :
  JS.coercible v = true -> JS.get v k = Returned (field v k).
Proof. unfold field. by destruct v. Qed.

(** *** The handlers that send *)

Lemma push_fetches f s : fetches (push f s) = fetches s.
Proof. unfold push. cases. Qed.

Lemma on_open_joins s :
  JS.coercible (me s) = true -> App.ws_is_open s = true ->
  after App.on_open s
  = set_fetches (fetches s ++ [VUndefined])
      (push (JS.JSON_stringify
               (App.join_envelope (field (me s) "email") (field (me s) "name")
                  (now s))) s).
Proof.
  intros Hm Ho. unfold App.on_open, App.me_get, App.fetchAndRenderOnline. monad.
  rewrite !(get_coercible _ _ Hm). rewrite ws_send_open by done. simpl.
  by rewrite push_fetches.
Qed.

Lemma on_open_effect s :
  core (after App.on_open s) = core s
  \/ exists f, Spec.is_join f /\ core (after App.on_open s) = core (push f s).
Proof.
  unfold App.on_open, App.me_get, App.fetchAndRenderOnline. monad.
  destruct (JS.get (me s) "email") as [e |]; [| by left].
  destruct (JS.get (me s) "name") as [n |]; [| by left].
  destruct (ws_send_push (JS.JSON_stringify (App.join_envelope e n (now s))) s)
    as [-> | [x ->]]; [| by left].
  right. eexists. split; [by exists e, n, (now s) | done].
Qed.

Lemma debounced_open v s :
  JS.coercible (me s) = true -> App.ws_is_open s = true ->
  after (App.debounced v) s
  = set_fetches (fetches s ++ [VStr v])
      (push (JS.JSON_stringify (App.search_envelope v (field (me s) "email"))) s).
Proof.
  intros Hm Ho. unfold App.debounced, App.me_get, App.fetchAndRenderOnline. monad.
  rewrite Ho, (get_coercible _ _ Hm). rewrite ws_send_open by done. simpl.
  by rewrite push_fetches.
Qed.

Lemma debounced_closed v s :
  App.ws_is_open s = false ->
  after (App.debounced v) s = set_fetches (fetches s ++ [VStr v]) s.
Proof.
  intros Ho. unfold App.debounced, App.fetchAndRenderOnline. monad.
  by rewrite Ho.
Qed.

Lemma on_submit_effect s :
  core (after App.on_submit s) = core s
  \/ exists f, has_type "search" f = false
               /\ core (after App.on_submit s) = core (push f s).
Proof.
  unfold App.on_submit, App.me_get, App.alert. monad.
  destruct (JS.get (me s) "email") as [e |]; [| by left].
  destruct (JS.truthy e); simpl; [| by left].
  destruct (Str.is_empty _); [by left |].
  destruct (JS.get (me s) "name") as [n |]; [| by left].
  destruct (App.ws_is_open s); [| by left].
  match goal with
  | |- context [App.ws_send ?f s] =>
      destruct (ws_send_push f s) as [-> | [x ->]]; [| by left]
  end.
  right. eexists. split; [| done]. done.
Qed.

(** *** Login and the search input *)

Lemma set_coercible v k x v' :
  JS.set v k x = Returned v' -> JS.coercible v' = true.
Proof. destruct v; simpl; intros [= <-]; done. Qed.

Lemma on_login_effect email password reply stored s :
  let s' := after (App.on_login email password reply stored) s in
  (now s', onlineDebounce s', timers s', nextTimer s')
  = (now s, onlineDebounce s, timers s, nextTimer s)
  /\ (JS.coercible (me s) = true -> JS.coercible (me s') = true)
  /\ (sockets s' = sockets s /\ ws s' = ws s
      \/ sockets s' = sockets s ++ [Socket CONNECTING []]
         /\ ws s' = Some (length (sockets s))
         /\ JS.coercible (me s') = true).
Proof.
  unfold App.on_login, App.me_get, App.me_set, App.connect, App.alert.
  monad. cases;
    (split; [done | split; [intros ? | try (by left); right; repeat split]]);
    simpl; eauto using set_coercible.
Qed.

Lemma on_search_input_effect raw s :
  Wf s ->
  let s' := after (App.on_search_input raw) s in
  (now s', me s', ws s', sockets s') = (now s, me s, ws s, sockets s)
  /\ timers s' = [Timer (nextTimer s) (now s + 180) (Str.trim raw)]
  /\ onlineDebounce s' = Some (nextTimer s)
  /\ nextTimer s' = S (nextTimer s).
Proof.
  intros [_ _ _ Hh _ Ht].
  unfold App.on_search_input, App.clearTimeout, App.setTimeout. monad.
  destruct (onlineDebounce s) as [id |] eqn:Eh; simpl.
  - specialize (Hh id eq_refl). apply Nat.eqb_neq in Hh. rewrite Hh. simpl.
    repeat split.
    destruct Ht as [-> | (t & -> & [= ->])]; [done |].
    rewrite filter_cons, filter_nil. by destruct (decide _).
  - repeat split. by destruct Ht as [-> | (t & _ & [=])].
Qed.

(** *** One step *)

Lemma unheard_core s s' : core s' = core s -> unheard s s'.
Proof.
  unfold core, unheard, sent_of_type. intros [= -> _ _ -> _ -> _].
  repeat split; [lia | done ..].
Qed.

Lemma unheard_push f s s' :
  Wf s -> has_type "search" f = false -> core s' = core (push f s) ->
  unheard s s'.
Proof.
  intros W Hf E. destruct (App.ws_is_open s) eqn:Eo.
  - pose proof (sent_of_type_push "search" f s W Eo) as Hs.
    rewrite Hf, app_nil_r in Hs.
    destruct (unheard_core _ _ E) as (Hn & Ht & Hq).
    destruct (push_open f s W Eo) as (? & ? & _ & _ & Ep).
    rewrite Ep in Hn, Ht. simpl in *.
    repeat split; [done | done | congruence].
  - rewrite push_closed in E by done. by apply unheard_core.
Qed.

Lemma unheard_trans s1 s2 s3 : unheard s1 s2 -> unheard s2 s3 -> unheard s1 s3.
Proof.
  intros (? & ? & ?) (? & ? & ?). repeat split; [lia | congruence ..].
Qed.

(** A socket changes its state and keeps its log. *)
Lemma restate_Wf i st out st' s :
  sockets s !! i = Some (Socket st out) -> st' <> CONNECTING -> Wf s ->
  Wf (set_sockets (<[i := Socket st' out]> (sockets s)) s).
Proof.
  intros Hi Hst [Hws Hme Hs Hh Hn Ht]. constructor; simpl; try done.
  - rewrite length_insert. destruct (ws s); [done |].
    by rewrite Hws in Hi.
  - intros _. apply Hme. intros E. by rewrite E in Hi.
  - apply Forall_insert; [done |].
    apply (Forall_lookup_1 _ _ _ _ Hs) in Hi as [_ H]. by split.
Qed.

Lemma restate_unheard i st out st' s :
  sockets s !! i = Some (Socket st out) ->
  unheard s (set_sockets (<[i := Socket st' out]> (sockets s)) s).
Proof.
  intros Hi. unfold unheard, sent_of_type. simpl.
  repeat split; [lia |].
  rewrite list_fmap_insert. simpl.
  rewrite list_insert_id; [done |]. by rewrite list_lookup_fmap, Hi.
Qed.

Lemma restate_joined i st out st' s :
  sockets s !! i = Some (Socket st out) -> (st' = OPEN -> ws s <> Some i) ->
  joined s -> joined (set_sockets (<[i := Socket st' out]> (sockets s)) s).
Proof.
  intros Hi Hst J j out'. simpl. intros Hw.
  destruct (decide (i = j)) as [<- | Hne].
  - rewrite list_lookup_insert_eq by (by eapply lookup_lt_Some).
    intros [= -> <-]. by destruct Hst.
  - rewrite list_lookup_insert_ne by done. by apply J.
Qed.

Lemma ws_open_Inv i s :
  Inv s -> sockets s !! i = Some (Socket CONNECTING []) ->
  let s' := after App.on_open (set_sockets (<[i := Socket OPEN []]> (sockets s)) s) in
  Inv s' /\ unheard s s'
  /\ (ws s = Some i ->
      me s' = me s
      /\ sockets s' !! i
         = Some (Socket OPEN
                   [JS.JSON_stringify
                      (App.join_envelope (field (me s) "email")
                         (field (me s) "name") (now s))])).
Proof.
  intros [W J] Hi.
  set (s1 := set_sockets (<[i := Socket OPEN []]> (sockets s)) s).
  assert (Wf s1) as W1 by (by eapply restate_Wf).
  assert (unheard s s1) as U1 by (by eapply restate_unheard).
  assert (i < length (sockets s))%nat as Hlt by (by eapply lookup_lt_Some).
  destruct (decide (ws s = Some i)) as [Hw | Hw].
  - assert (App.ws_is_open s1 = true) as Ho.
    { unfold App.ws_is_open. simpl. rewrite Hw.
      by rewrite list_lookup_insert_eq. }
    assert (JS.coercible (me s1) = true) as Hm.
    { apply (wf_me _ W). intros E. by rewrite E in Hi. }
    simpl. rewrite (on_open_joins s1 Hm Ho).
    set (f := JS.JSON_stringify _).
    assert (Spec.is_join f) as Hf by (by eexists _, _, _).
    split; [| split].
    + split.
      * eapply Wf_core; [| apply (Wf_push f s1 W1); by right]. done.
      * eapply joined_core; [| by apply (joined_push f s1)]. done.
    + eapply unheard_trans; [done |].
      eapply unheard_push; [done | by apply is_join_type | done].
    + intros _. unfold push. simpl. rewrite Hw.
      rewrite list_lookup_insert_eq by done. simpl.
      rewrite list_lookup_insert_eq by (by rewrite length_insert). done.
  - assert (Inv s1) as I1.
    { split; [done |]. eapply restate_joined; [done | | done]. done. }
    simpl. fold s1.
    destruct (on_open_effect s1) as [E | (f & Hf & E)].
    + split; [| split]; [| | done].
      * by eapply Inv_core; [symmetry |].
      * eapply unheard_trans; [done |]. by apply unheard_core.
    + split; [| split]; [| | done].
      * eapply Inv_core; [symmetry; exact E |]. by apply Inv_push.
      * eapply unheard_trans; [done |].
        eapply unheard_push; [done | by apply is_join_type | done].
Qed.

Lemma Inv_unheard_core s s' : Inv s -> core s' = core s -> Inv s' /\ unheard s s'.
Proof.
  intros I E. split; [by eapply Inv_core; [symmetry |] | by apply unheard_core].
Qed.

Lemma input_step raw s s' :
  Inv s -> step (SearchInput raw) s = Some s' ->
  Inv s' /\ now s' = now s
  /\ timers s' = [Timer (nextTimer s) (now s + 180) (Str.trim raw)]
  /\ sent_of_type "search" s' = sent_of_type "search" s.
Proof.
  intros [W J] H. simpl in H.
  destruct (memberSearch s) as [current |]; [| done]. injection H as <-.
  set (s1 := set_memberSearch (Some raw) s).
  assert (Wf s1) as W1 by (by eapply Wf_core; [| exact W]).
  destruct (on_search_input_effect raw s1 W1) as ([= En Em Ew Es] & Et & Eh & Ex).
  simpl in *. split; [split |]; [| | split; [done | split; [done |]]].
  - destruct W as [Hws Hme Hs Hh Hn Ht].
    constructor; rewrite ?Ew, ?Es, ?Em, ?Et, ?Eh, ?Ex; try done.
    + by intros id [= <-].
    + right. by eexists.
  - intros i out. rewrite Ew, Es. apply J.
  - unfold sent_of_type. by rewrite Es.
Qed.

Lemma fire_step k s s' :
  Inv s -> step (TimerFires k) s = Some s' ->
  exists t,
    timers s = [t] /\ tid t = k /\ due t <= now s
    /\ Inv s' /\ now s' = now s /\ timers s' = []
    /\ sent_of_type "search" s'
       = sent_of_type "search" s
         ++ (if App.ws_is_open s
             then [JS.JSON_stringify
                     (App.search_envelope (query t) (field (me s) "email"))]
             else []).
Proof.
  intros [W J] H. simpl in H. unfold pending in H.
  destruct (wf_timers _ W) as [Et | (t & Et & Eh)]; rewrite Et in H; [done |].
  rewrite filter_cons, filter_nil in H.
  destruct (decide (tid t = k)) as [Ek | Nk]; [| done]. simpl in H.
  destruct (due t <=? now s) eqn:Ed; [| done]. injection H as <-.
  rewrite filter_cons, filter_nil. destruct (decide (tid t <> k)); [done |].
  exists t. split; [done |]. split; [done |]. split; [lia |].
  set (s1 := set_timers [] s).
  assert (Wf s1) as W1.
  { destruct W. constructor; simpl; try done. by left. }
  assert (joined s1) as J1 by done.
  destruct (App.ws_is_open s) eqn:Eo.
  - assert (JS.coercible (me s1) = true) as Hm.
    { apply (wf_me _ W). unfold App.ws_is_open in Eo.
      destruct (ws s) as [i |]; [| done]. by destruct (sockets s). }
    rewrite (debounced_open (query t) s1 Hm Eo).
    set (f := JS.JSON_stringify _).
    destruct (push_open f s1 W1 Eo) as (before & out & Es & Ew & Ep).
    split; [split |]; [| | split; [| split]].
    + eapply Wf_core; [| apply (Wf_push f s1 W1); by left]. done.
    + eapply joined_core; [| by apply (joined_push f s1)]. done.
    + by rewrite Ep.
    + by rewrite Ep.
    + change (sent_of_type "search" (push f s1)
              = sent_of_type "search" s1 ++ [f]).
      by rewrite (sent_of_type_push "search" f s1 W1 Eo).
  - rewrite (debounced_closed (query t) s1 Eo). simpl.
    rewrite app_nil_r. split; [split |]; [| | by repeat split].
    + eapply Wf_core; [| exact W1]. done.
    + done.
Qed.

Lemma step_Inv e s s' :
  Inv s -> step e s = Some s' ->
  Inv s' /\ now s <= now s'
  /\ (is_input e = false -> is_fire e = false -> unheard s s').
Proof.
  intros I H.
  assert (forall s1, Inv s1 /\ unheard s s1 ->
            Inv s1 /\ now s <= now s1
            /\ (is_input e = false -> is_fire e = false -> unheard s s1)) as Q.
  { intros s1 [? U]. split; [done | split; [by destruct U | done]]. }
  destruct e as [d | i | i frame | i | i | em pw reply st | raw | [] | k | | k r
                | | raw | k]; simpl in H.
  - (* Tick *)
    destruct (0 <=? d) eqn:Ed; [| done]. injection H as <-. apply Q. split.
    + destruct I as [[] J]. by split.
    + unfold unheard, sent_of_type. simpl. repeat split. lia.
  - (* WsOpen *)
    destruct (sockets s !! i) as [[[] out] |] eqn:Ei; try done.
    injection H as <-.
    assert (out = []) as ->.
    { destruct I as [W _].
      destruct (Forall_lookup_1 _ _ _ _ (wf_sockets _ W) Ei) as [Hc _].
      by apply Hc. }
    destruct (ws_open_Inv i s I Ei) as (? & ? & _). by apply Q.
  - (* WsMessage *)
    destruct (sockets s !! i) as [[[] out] |]; try done. injection H as <-.
    apply Q, Inv_unheard_core; [done | apply on_message_core].
  - (* WsClose *)
    destruct I as [W J].
    destruct (sockets s !! i) as [[st out] |] eqn:Ei; [| done].
    assert (s' = set_sockets (<[i := Socket CLOSED out]> (sockets s)) s) as ->
      by (by destruct st; simplify_eq).
    apply Q. split; [split |].
    + by eapply restate_Wf.
    + by eapply restate_joined.
    + by eapply restate_unheard.
  - (* WsError *)
    destruct (sockets s !! i); [| done]. injection H as <-.
    by apply Q, Inv_unheard_core.
  - (* LoginClick *)
    injection H as <-.
    destruct (on_login_effect em pw reply st s) as ([= En Eh Et Ex] & Hm & Hs).
    destruct I as [[Hws Hme Hso Hh Hn Ht] J].
    set (s' := after _ s) in *. apply Q. split; [split |].
    + constructor; rewrite ?Eh, ?Et, ?Ex; try done.
      * destruct Hs as [[-> ->] | (-> & -> & _)]; [done |].
        rewrite length_app. simpl. lia.
      * destruct Hs as [[-> _] | (_ & _ & ?)]; [| done]. auto.
      * destruct Hs as [[-> _] | (-> & _ & _)]; [done |].
        apply Forall_app. split; [done |]. apply Forall_singleton.
        by split.
    + intros i out.
      destruct Hs as [[-> ->] | (-> & -> & _)]; [apply J |].
      intros [= <-]. by rewrite lookup_app_r, Nat.sub_diag.
    + unfold unheard, sent_of_type. rewrite En, Et.
      repeat split; [lia |].
      destruct Hs as [[-> _] | (-> & _ & _)]; [done |].
      rewrite fmap_app, concat_app. simpl. by rewrite !app_nil_r.
  - (* SearchInput *)
    destruct (input_step raw s s' I H) as (? & -> & _).
    split; [done | split; [lia | by intros [=]]].
  - (* Focus on the search field *)
    destruct (memberSearch s); [| done]. injection H as <-.
    apply Q, Inv_unheard_core; [done |].
    by rewrite on_search_focus_core.
  - (* Focus elsewhere *)
    injection H as <-. by apply Q, Inv_unheard_core.
  - (* TimerFires *)
    destruct (fire_step k s s' I H) as (t & _ & _ & _ & ? & -> & _).
    split; [done | split; [lia | by intros _ [=]]].
  - (* IntervalFires *)
    injection H as <-. apply Q, Inv_unheard_core; [done | apply on_interval_core].
  - (* FetchSettles *)
    destruct (fetches s !! k); [| done]. injection H as <-.
    apply Q, Inv_unheard_core; [done |]. by rewrite settle_core.
  - (* Submit *)
    injection H as <-.
    destruct (on_submit_effect s) as [E | (f & Hf & E)].
    + by apply Q, Inv_unheard_core.
    + apply Q. split.
      * eapply Inv_core; [symmetry; exact E |]. by apply Inv_push.
      * destruct I. by eapply unheard_push.
  - (* MessageInput *)
    injection H as <-. by apply Q, Inv_unheard_core.
  - (* MemberClick *)
    destruct (onlineList s !! k) as [[| em nm] |]; try done. injection H as <-.
    apply Q, Inv_unheard_core; [done |]. by rewrite on_member_click_core.
Qed.

Lemma boot_Inv t0 search saved : Inv (App.boot t0 search saved).
Proof.
  assert (forall m, Inv (set_me m (App.initial t0 search))) as I0.
  { intros m. split; [constructor; simpl; try done; by left | by intros i out [=]]. }
  pose proof (I0 (me (App.initial t0 search))) as I1.
  unfold App.boot. destruct saved as [record |]; [| exact I1].
  unfold App.restore, App.me_get, App.connect. monad.
  destruct (App.JSON_parse record) as [m |]; [| exact I1]. simpl.
  destruct (JS.get m "name") eqn:En; [| apply I0].
  destruct (JS.to_string _); [| apply I0].
  destruct (JS.get m "email"); [| apply I0].
  destruct (JS.to_string _); [| apply I0]. simpl.
  split; [constructor; simpl; try done |].
  - intros _. by destruct m.
  - apply Forall_singleton. by split.
  - by left.
  - by intros i out [= <-] [=].
Qed.

(** Every state of the page satisfies the invariant. *)
Lemma reachable_Inv s : reachable s -> Inv s.
Proof.
  induction 1 as [t0 search saved | s e s' _ IH H].
  - apply boot_Inv.
  - by destruct (step_Inv e s s' IH H).
Qed.

End Invariant.

(** ** ConnectionManager *)

Section Connection.

Local Open Scope list_scope.

Lemma joining_reachable : reachable Scenario.joining.
Proof.
  apply (reachable_step Scenario.fresh
           (LoginClick "a@x.com" "secret" Scenario.alice true));
    [apply reachable_boot | reflexivity].
Qed.

Example online_is_connected :
  steps Scenario.connected Scenario.fresh = Some Scenario.online.
Proof. reflexivity. Qed.

Lemma online_reachable : reachable Scenario.online.
Proof.
  apply (reachable_step Scenario.joining (WsOpen 0));
    [apply joining_reachable | reflexivity].
Qed.

(** C1. On every connection the first envelope sent is a join envelope:
    a socket sends nothing while it connects, and the first frame in its
    log is a join, so no message or search envelope precedes it. When
    the connection that [ws] refers to opens, exactly one envelope is
    sent on it, the join [{type:"join", email, name, ts}] with the email
    and name of the identity at that moment and the current time. *)
Theorem join_is_first s :
  reachable s ->
  (forall i k, sockets s !! i = Some k ->
     (readyState k = CONNECTING -> sent k = [])
     /\ (forall f rest, sent k = f :: rest ->
           Spec.is_join f
           /\ has_type "join" f = true
           /\ has_type "message" f = false
           /\ has_type "search" f = false))
  /\ (forall i s', ws s = Some i -> step (WsOpen i) s = Some s' ->
        me s' = me s
        /\ sockets s' !! i
           = Some (Socket OPEN
                     [JS.JSON_stringify
                        (App.join_envelope (field (me s) "email")
                           (field (me s) "name") (now s))]))
  /\ (forall e n t,
        let f := JS.JSON_stringify (App.join_envelope e n t) in
        field f "type" = VStr "join" /\ field f "email" = e
        /\ field f "name" = n /\ field f "ts" = VNum t
        /\ (JS.is_undefined e = false -> JS.is_undefined n = false ->
            has_shape Spec.join_shape f = true)).
Proof.
  intros R. pose proof (reachable_Inv s R) as I. destruct (I) as [W J].
  split; [| split].
  - intros i k Hi.
    destruct (Forall_lookup_1 _ _ _ _ (wf_sockets _ W) Hi) as [Hc Hf].
    split; [done |]. intros f rest Hs.
    pose proof (Hf f rest Hs) as Hj. split; [done |]. by apply is_join_type.
  - intros i s' Hw H. simpl in H.
    destruct (sockets s !! i) as [[[] out] |] eqn:Ei; try done.
    injection H as <-.
    assert (out = []) as ->.
    { destruct (Forall_lookup_1 _ _ _ _ (wf_sockets _ W) Ei) as [Hc _].
      by apply Hc. }
    destruct (ws_open_Inv i s I Ei) as (_ & _ & H). by apply H.
  - intros e n t f. subst f. destruct e, n; by repeat split.
Qed.

Lemma join_is_first_witness :
  reachable Scenario.joining
  /\ forall i s',
      ws Scenario.joining = Some i ->
      step (WsOpen i) Scenario.joining = Some s' ->
      me s' = me Scenario.joining
      /\ sockets s' !! i
         = Some (Socket OPEN
                   [JS.JSON_stringify
                      (App.join_envelope (field (me Scenario.joining) "email")
                         (field (me Scenario.joining) "name")
                         (now Scenario.joining))]).
Proof.
  assert (reachable Scenario.joining) as R.
  { apply (reachable_step Scenario.fresh
             (LoginClick "a@x.com" "secret" Scenario.alice true));
      [apply reachable_boot | reflexivity]. }
  split; [exact R |].
  apply (join_is_first Scenario.joining R).
Defined.

(** The handshake of the specification's test, run. *)
Example join_of_alice :
  outbox <$> steps Scenario.connected Scenario.fresh
  = Some [VObj [("type", VStr "join"); ("email", VStr "a@x.com");
                ("name", VStr "Alice"); ("ts", VNum 0)]].
Proof. reflexivity. Qed.

(** C3, as the client has it. [connect] does not look at the identity:
    whatever the email, it opens a new connection, which [ws] refers to
    from then on, and sends nothing at the call; when that connection
    opens, the join envelope goes out with the email as it is. *)
Theorem connect_has_no_guard s :
  let s' := after App.connect s in
  App.connect s = (Returned tt, s')
  /\ sockets s' = sockets s ++ [Socket CONNECTING []]
  /\ ws s' = Some (length (sockets s))
  /\ me s' = me s
  /\ outbox s' = []
  /\ outbox <$> step (WsOpen (length (sockets s))) s'
     = Some (if JS.coercible (me s)
             then [JS.JSON_stringify
                     (App.join_envelope (field (me s) "email")
                        (field (me s) "name") (now s))]
             else []).
Proof.
  simpl. unfold outbox. simpl.
  rewrite !lookup_app_r, !Nat.sub_diag by done. simpl.
  repeat split.
  rewrite insert_app_r_alt, Nat.sub_diag by done. simpl.
  set (s1 := set_sockets _ _).
  assert (App.ws_is_open s1 = true) as Ho.
  { unfold App.ws_is_open. simpl. by rewrite lookup_app_r, Nat.sub_diag. }
  destruct (JS.coercible (me s)) eqn:Hm.
  - rewrite (on_open_joins s1 Hm Ho). unfold push. simpl.
    rewrite lookup_app_r, Nat.sub_diag by done. simpl.
    rewrite insert_app_r_alt, Nat.sub_diag by done. simpl.
    by rewrite lookup_app_r, Nat.sub_diag.
  - unfold App.on_open, App.me_get. monad. simpl.
    assert (JS.get (me s) "email" = Threw TypeError) as ->
      by (by destruct (me s)).
    simpl. by rewrite lookup_app_r, Nat.sub_diag.
Qed.

(** C3, as stated, fails. The page is restored from a record without an
    email: a connection is opened, and when it opens a join envelope is
    sent. Called on the identity the page starts with, whose email is
    [null], [connect] is not a no-op either. *)
Lemma connect_without_email :
  field (me Scenario.anonymous) "email" = VUndefined
  /\ sockets Scenario.anonymous = [Socket CONNECTING []]
  /\ outbox <$> step (WsOpen 0) Scenario.anonymous
     = Some [VObj [("type", VStr "join"); ("name", VStr "Bob"); ("ts", VNum 0)]]
  /\ field (me (App.initial 0 None)) "email" = VNull
  /\ sockets (after App.connect (App.initial 0 None)) = [Socket CONNECTING []]
  /\ after App.connect (App.initial 0 None) <> App.initial 0 None.
Proof. repeat split. discriminate. Qed.

End Connection.

(** ** SearchCoordinator: the debounce *)

Section Debounce.

Local Open Scope list_scope.

Lemma steps_Inv evs s s' :
  Inv s -> steps evs s = Some s' -> Inv s' /\ now s <= now s'.
Proof.
  revert s. induction evs as [| e evs IH]; intros s I H; simpl in H.
  - injection H as <-. split; [done | lia].
  - destruct (step e s) as [s1 |] eqn:E; [| done].
    destruct (step_Inv e s s1 I E) as (I1 & Hn & _).
    destruct (IH s1 I1 H) as [? ?]. split; [done | lia].
Qed.

(** While changes keep coming within the window, one timeout is pending,
    set by the last change, and nothing has been broadcast. *)
Lemma burst_run evs :
  forall s t raw id s1 t0,
    Inv s -> timers s = [Timer id (t + 180) (Str.trim raw)] ->
    t0 <= t -> t <= now s -> steps evs s = Some s1 -> now s1 < t0 + 180 ->
    exists t' raw' id',
      last_change (Some (t, raw)) evs s = Some (t', raw')
      /\ timers s1 = [Timer id' (t' + 180) (Str.trim raw')]
      /\ sent_of_type "search" s1 = sent_of_type "search" s
      /\ Inv s1.
Proof.
  induction evs as [| e evs IH]; intros s t raw id s1 t0 I Ht H0 H1 H Hw;
    simpl in H |- *.
  - injection H as <-. by exists t, raw, id.
  - destruct (step e s) as [s2 |] eqn:E; [| done].
    destruct (step_Inv e s s2 I E) as (I2 & Hn & Hq).
    destruct (steps_Inv evs s2 s1 I2 H) as [_ Hn2].
    destruct (is_input e) eqn:Ei; [| destruct (is_fire e) eqn:Ef].
    + destruct e as [| | | | | | raw2 | | | | | | |]; try discriminate.
      destruct (input_step raw2 s s2 I E) as (_ & En & Et2 & Es).
      rewrite <- Es.
      eapply (IH s2 (now s) raw2 _ s1 t0); try done; lia.
    + destruct e as [| | | | | | | | k | | | | |]; try discriminate.
      destruct (fire_step k s s2 I E) as (tm & Et & _ & Hd & _).
      rewrite Et in Ht. injection Ht as ->. simpl in Hd. lia.
    + destruct (Hq eq_refl eq_refl) as (_ & Et & Es).
      assert (exists t' raw' id',
                last_change (Some (t, raw)) evs s2 = Some (t', raw')
                /\ timers s1 = [Timer id' (t' + 180) (Str.trim raw')]
                /\ sent_of_type "search" s1 = sent_of_type "search" s
                /\ Inv s1) as G.
      { rewrite <- Es.
        eapply (IH s2 t raw id s1 t0); try done; [congruence | lia]. }
      by destruct e.
Qed.

Lemma quiet_run evs :
  forall s s', Inv s -> forallb calm evs = true -> steps evs s = Some s' ->
               Inv s' /\ unheard s s'.
Proof.
  induction evs as [| e evs IH]; intros s s' I Hc H; simpl in H, Hc.
  - injection H as <-. split; [done |]. by apply unheard_core.
  - destruct (step e s) as [s1 |] eqn:E; [| done].
    apply andb_true_iff in Hc as [Hc Hcs].
    apply andb_true_iff in Hc as [Hi Hf].
    apply negb_true_iff in Hi, Hf.
    destruct (step_Inv e s s1 I E) as (I1 & _ & Hq).
    destruct (IH s1 s' I1 Hcs H) as [I' U].
    split; [done |]. eapply unheard_trans; [by apply Hq | done].
Qed.

(** C6, as the client has it. At most one debounce timeout is pending
    at any time. A change of the search field leaves exactly one, due
    180 ms later, with the trimmed text of that change. After a burst of
    changes that stays within a window shorter than 180 ms the pending
    timeout is the one of the last change and no search envelope has been
    sent; it is the only timeout that can fire afterwards, not before
    180 ms have passed since the last change, and when it fires it
    broadcasts one search envelope with the last query if the connection
    is open, and none if it is not. *)
Theorem debounce_collapses s0 :
  reachable s0 ->
  (length (timers s0) <= 1)%nat
  /\ (forall raw s1,
        step (SearchInput raw) s0 = Some s1 ->
        timers s1 = [Timer (nextTimer s0) (now s0 + 180) (Str.trim raw)])
  /\ (forall r0 burst s1,
        steps (SearchInput r0 :: burst) s0 = Some s1 ->
        now s1 < now s0 + 180 ->
        exists t raw id,
          last_change None (SearchInput r0 :: burst) s0 = Some (t, raw)
          /\ timers s1 = [Timer id (t + 180) (Str.trim raw)]
          /\ sent_of_type "search" s1 = sent_of_type "search" s0
          /\ forall quiet s2 k s3,
              forallb calm quiet = true ->
              steps quiet s1 = Some s2 ->
              step (TimerFires k) s2 = Some s3 ->
              k = id /\ t + 180 <= now s2 /\ timers s3 = []
              /\ sent_of_type "search" s3
                 = sent_of_type "search" s0
                   ++ (if App.ws_is_open s2
                       then [JS.JSON_stringify
                               (App.search_envelope (Str.trim raw)
                                  (field (me s2) "email"))]
                       else [])).
Proof.
  intros R. pose proof (reachable_Inv s0 R) as I.
  split; [| split].
  - destruct (wf_timers _ (proj1 I)) as [-> | (t & -> & _)]; simpl; lia.
  - intros raw s1 H. by destruct (input_step raw s0 s1 I H) as (_ & _ & ? & _).
  - intros r0 burst s1 H Hw. cbn [steps last_change] in H |- *.
    destruct (step (SearchInput r0) s0) as [sa |] eqn:E; [| done].
    destruct (input_step r0 s0 sa I E) as (Ia & En & Et & Es).
    destruct (burst_run burst sa (now s0) r0 (nextTimer s0) s1 (now s0))
      as (t & raw & id & El & Et1 & Es1 & I1); try done; try lia.
    exists t, raw, id. rewrite Es in Es1.
    split; [done |]. split; [done |]. split; [done |].
    intros quiet s2 k s3 Hc Hq Hf.
    destruct (quiet_run quiet s1 s2 I1 Hc Hq) as (I2 & _ & Et2 & Es2).
    destruct (fire_step k s2 s3 I2 Hf) as (tm & Etm & Ek & Hd & _ & _ & Et3 & Es3).
    rewrite Et2, Et1 in Etm. injection Etm as <-. simpl in *.
    rewrite Es3, Es2, Es1. done.
Qed.

Lemma debounce_collapses_witness :
  reachable Scenario.online
  /\ forall raw s1,
      step (SearchInput raw) Scenario.online = Some s1 ->
      timers s1
      = [Timer (nextTimer Scenario.online) (now Scenario.online + 180)
           (Str.trim raw)].
Proof.
  assert (reachable Scenario.online) as R.
  { apply (reachable_step Scenario.joining (WsOpen 0)); [| reflexivity].
    apply (reachable_step Scenario.fresh
             (LoginClick "a@x.com" "secret" Scenario.alice true));
      [apply reachable_boot | reflexivity]. }
  split; [exact R |].
  apply (debounce_collapses Scenario.online R).
Defined.

(** C6, as stated, fails: five changes within 100 ms on a page that has
    no connection (nobody has logged in). The timeout of the last change
    fires, 180 ms after it, and no search envelope is broadcast, where
    the claim has exactly one. *)
Lemma burst_without_connection :
  let s := steps Scenario.typing Scenario.fresh in
  App.ws_is_open <$> s = Some false
  /\ timers <$> s = Some []
  /\ fetches <$> s = Some [VStr "alice"]
  /\ sent_of_type "search" <$> s = Some []
  /\ length <$> (sent_of_type "search" <$> s) <> Some 1%nat.
Proof. vm_compute. repeat split. discriminate. Qed.

(** The same burst on Alice's connected page: one envelope, with the last
    query. *)
Example burst_of_alice :
  sent_of_type "search"
    <$> steps (Scenario.connected ++ Scenario.typing) Scenario.fresh
  = Some [VObj [("type", VStr "search"); ("query", VStr "alice");
                ("from", VStr "a@x.com")]].
Proof. vm_compute. reflexivity. Qed.

End Debounce.

(** ** Composer: what is sent, and what comes back *)

Section Messages.

Local Open Scope list_scope.

Lemma outbox_push f s :
  App.ws_is_open s = true -> outbox (push f s) = outbox s ++ [f].
Proof.
  unfold App.ws_is_open, push, outbox.
  destruct (ws s) as [i |] eqn:Ew; [| done].
  destruct (sockets s !! i) as [[[] out] |] eqn:Ei; try done. intros _.
  simpl. rewrite Ew, list_lookup_insert_eq by (by eapply lookup_lt_Some).
  done.
Qed.

Lemma on_submit_open s e :
  App.ws_is_open s = true ->
  JS.get (me s) "email" = Returned e -> JS.truthy e = true ->
  Str.trim (messageInput s) <> "" ->
  App.on_submit s
  = (Returned tt,
     set_messageInput ""
       (push (JS.JSON_stringify
                (App.message_envelope e (field (me s) "name")
                   (Str.trim (messageInput s)) (now s))) s)).
Proof.
  intros Ho He Ht Hx.
  unfold App.on_submit, App.me_get. monad. rewrite He, Ht. simpl.
  destruct (Str.trim (messageInput s)) eqn:Et; [done |]. simpl.
  assert (JS.coercible (me s) = true) as Hm by (by destruct (me s)).
  rewrite (get_coercible _ "name" Hm), Ho.
  by rewrite ws_send_open.
Qed.

(** X1. A text that is not blank, submitted by an identity with an email
    on an open connection, goes out as one message envelope
    [{type:"message", email, name, text, ts}] with the trimmed text, the
    email of the identity and the current time; the input is cleared and
    nothing is reported. *)
Theorem submit_sends s e :
  App.ws_is_open s = true ->
  JS.get (me s) "email" = Returned e -> JS.truthy e = true ->
  Str.trim (messageInput s) <> "" ->
  let f := JS.JSON_stringify
             (App.message_envelope e (field (me s) "name")
                (Str.trim (messageInput s)) (now s)) in
  let s' := after App.on_submit s in
  outbox s' = outbox s ++ [f]
  /\ messageInput s' = "" /\ alerts s' = alerts s
  /\ messagesEl s' = messagesEl s
  /\ field f "type" = VStr "message" /\ field f "email" = e
  /\ field f "name" = field (me s) "name"
  /\ field f "text" = VStr (Str.trim (messageInput s))
  /\ field f "ts" = VNum (now s).
Proof.
  intros Ho He Ht Hx f s'. subst s'. unfold after.
  rewrite (on_submit_open s e Ho He Ht Hx). fold f. simpl.
  split; [by apply outbox_push |].
  assert (forall g, alerts (push g s) = alerts s
                    /\ messagesEl (push g s) = messagesEl s) as Hp.
  { intros g. unfold push. cases. }
  destruct (Hp f) as [-> ->].
  subst f. destruct e; try discriminate; destruct (field (me s) "name");
    by repeat split.
Qed.

Lemma submit_sends_witness :
  let s := set_messageInput "  hi there " Scenario.online in
  let f := JS.JSON_stringify
             (App.message_envelope (VStr "a@x.com") (field (me s) "name")
                (Str.trim (messageInput s)) (now s)) in
  let s' := after App.on_submit s in
  outbox s' = outbox s ++ [f]
  /\ messageInput s' = "" /\ alerts s' = alerts s
  /\ messagesEl s' = messagesEl s
  /\ field f "type" = VStr "message" /\ field f "email" = VStr "a@x.com"
  /\ field f "name" = field (me s) "name"
  /\ field f "text" = VStr (Str.trim (messageInput s))
  /\ field f "ts" = VNum (now s).
Proof.
  intros s.
  apply (submit_sends s (VStr "a@x.com")); [reflexivity .. |].
  vm_compute. discriminate.
Defined.

(** X2. The Composer sends only under its three conditions: when a
    submit has put a frame on any socket, the connection was open, the
    identity had an email and the text was not blank. *)
Theorem submit_sends_only_if s :
  all_sent (after App.on_submit s) <> all_sent s ->
  App.ws_is_open s = true
  /\ Str.trim (messageInput s) <> ""
  /\ exists e, JS.get (me s) "email" = Returned e /\ JS.truthy e = true.
Proof.
  unfold App.on_submit, App.me_get, App.alert. monad. unfold all_sent.
  destruct (JS.get (me s) "email") as [e |]; [| done].
  destruct (JS.truthy e) eqn:Ht; simpl; [| done].
  destruct (Str.trim (messageInput s)) eqn:Et; [done |]. simpl.
  destruct (JS.get (me s) "name") as [n |]; [| done].
  destruct (App.ws_is_open s); [| done]. intros _.
  split; [done |]. split; [done |]. by exists e.
Qed.

Lemma submit_sends_only_if_witness :
  let s := set_messageInput "hi" Scenario.online in
  App.ws_is_open s = true
  /\ Str.trim (messageInput s) <> ""
  /\ exists e, JS.get (me s) "email" = Returned e /\ JS.truthy e = true.
Proof.
  intros s. apply (submit_sends_only_if s). vm_compute. discriminate.
Defined.

(** X3. Without an email the Composer only tells the user to log in, and
    keeps the input; with an email and a blank text it does nothing at
    all. *)
Theorem submit_rejected_locally s e :
  JS.get (me s) "email" = Returned e ->
  JS.truthy e = false \/ Str.trim (messageInput s) = "" ->
  App.on_submit s
  = (Returned tt,
     if JS.truthy e then s
     else set_alerts (alerts s ++ [Alert "Please login first"]) s).
Proof.
  intros He H. unfold App.on_submit, App.me_get, App.alert. monad.
  rewrite He. destruct (JS.truthy e); simpl; [| done].
  destruct H as [H | ->]; done.
Qed.

Lemma submit_rejected_locally_witness :
  let s := set_messageInput "   " Scenario.online in
  App.on_submit s
  = (Returned tt,
     if JS.truthy (VStr "a@x.com") then s
     else set_alerts (alerts s ++ [Alert "Please login first"]) s).
Proof.
  intros s. apply (submit_rejected_locally s (VStr "a@x.com")).
  - reflexivity.
  - right. reflexivity.
Defined.

End Messages.

(** ** PresenceDirectory: rendering as a whole *)

Section Rendering.

Local Open Scope list_scope.

Lemma forEach_appends l :
  exists o added, forall s,
    App.forEach App.member_entry l s
    = (o, set_onlineList (onlineList s ++ added) s).
Proof.
  induction l as [| u l (o & added & IH)].
  - exists (Returned tt), []. intros s. simpl. rewrite app_nil_r. by destruct s.
  - simpl. unfold App.member_entry, App.appendChild. monad.
    destruct (JS.get u "email") as [e | x].
    2: { exists (Threw x), []. intros s. rewrite app_nil_r. by destruct s. }
    destruct (JS.to_string e) as [se | x].
    2: { exists (Threw x), []. intros s. rewrite app_nil_r. by destruct s. }
    destruct (JS.get u "name") as [n | x].
    2: { exists (Threw x), []. intros s. rewrite app_nil_r. by destruct s. }
    destruct (JS.to_string _) as [sn | x].
    2: { exists (Threw x), []. intros s. rewrite app_nil_r. by destruct s. }
    eexists o, (_ :: added). intros s. rewrite IH. simpl.
    by rewrite <- app_assoc.
Qed.

Lemma renderOnline_sets_list l filter :
  exists o shown, forall s,
    App.renderOnline l filter s = (o, set_onlineList shown s).
Proof.
  unfold App.renderOnline, App.appendChild. monad.
  destruct (App.filter_list (App.keeps filter) l) as [kept | x].
  2: { by exists (Threw x), []. }
  destruct (length kept =? 0)%nat.
  - by exists (Returned tt), [App.no_match].
  - destruct (forEach_appends kept) as (o & added & H).
    exists o, added. intros s. by rewrite H.
Qed.

(** X4. [renderOnline] replaces the list wholesale: whether it returns
    or throws, and the rows it leaves, depend on the entries and the
    filter only, not on what was shown before or on anything else on the
    page, and it changes nothing but the list. A late response therefore
    overwrites whatever a later request has rendered. *)
Theorem renderOnline_replaces l filter s1 s2 :
  (App.renderOnline l filter s1).1 = (App.renderOnline l filter s2).1
  /\ onlineList (after (App.renderOnline l filter) s1)
     = onlineList (after (App.renderOnline l filter) s2)
  /\ after (App.renderOnline l filter) s1
     = set_onlineList (onlineList (after (App.renderOnline l filter) s1)) s1.
Proof.
  destruct (renderOnline_sets_list l filter) as (o & shown & H).
  unfold after. by rewrite !H.
Qed.

Lemma filter_list_throws filter l1 u e l2 :
  JS.truthy filter = true -> (forall f, filter <> VStr f) ->
  Spec.entries l1 -> JS.get u "email" = Returned (VStr e) -> e <> "" ->
  App.filter_list (App.keeps filter) (l1 ++ u :: l2) = Threw TypeError.
Proof.
  intros Ht Hf Hl He Hne.
  assert (App.toLowerCase filter = Threw TypeError) as Hlow.
  { destruct filter; try done. by destruct (Hf s). }
  assert (App.keeps filter u = Threw TypeError) as Hu.
  { unfold App.keeps. rewrite Ht, He. simpl.
    destruct e; [done |]. simpl. by rewrite Hlow. }
  induction Hl as [| w l1 Hw _ IH]; simpl.
  - by rewrite Hu.
  - destruct w as [| | | | | |own]; try discriminate.
    unfold App.keeps at 1. rewrite Ht. simpl in *.
    destruct (JS.assoc "email" own) as [[| | | |we| |] |]; try discriminate;
      simpl.
    + destruct (Str.is_empty we); simpl; [by rewrite IH | by rewrite Hlow].
    + by rewrite IH.
Qed.

(** X5. A filter that is truthy and not a string (a remote search
    envelope can carry any JSON value as its query) makes [renderOnline]
    throw as soon as one entry has an email: the list has been emptied
    and stays empty, without the placeholder. *)
Theorem renderOnline_bad_filter filter l1 u e l2 s :
  JS.truthy filter = true -> (forall f, filter <> VStr f) ->
  Spec.entries l1 -> JS.get u "email" = Returned (VStr e) -> e <> "" ->
  App.renderOnline (l1 ++ u :: l2) filter s
  = (Threw TypeError, set_onlineList [] s).
Proof.
  intros Ht Hf Hl He Hne. unfold App.renderOnline. monad.
  by rewrite (filter_list_throws filter l1 u e l2).
Qed.

Lemma renderOnline_bad_filter_witness :
  let alice := VObj [("email", VStr "alice@x.com")] in
  let s := set_onlineList [MemberEntry (VStr "alice@x.com") (VStr "")]
             Scenario.online in
  App.renderOnline ([] ++ alice :: []) (VNum 5) s
  = (Threw TypeError, set_onlineList [] s).
Proof.
  intros alice s.
  apply (renderOnline_bad_filter (VNum 5) [] alice "alice@x.com" [] s);
    try reflexivity; try discriminate.
  constructor.
Defined.

(** X6. Whenever the directory request yields no entry, because it
    failed or because nobody is online, the list shows the single
    placeholder row, whatever the filter is. *)
Theorem settle_without_entries filter r s :
  App.fetchOnline r = Returned [] ->
  App.settle filter r s = (Returned tt, set_onlineList [App.no_match] s).
Proof. intros H. unfold App.settle. monad. by rewrite H. Qed.

Lemma settle_without_entries_witness :
  App.settle (VStr "al") App.Rejected Scenario.online
  = (Returned tt, set_onlineList [App.no_match] Scenario.online).
Proof.
  apply (settle_without_entries (VStr "al") App.Rejected Scenario.online).
  reflexivity.
Defined.

End Rendering.

(** ** Inbound frames *)

Section Inbound.

Local Open Scope list_scope.

Lemma on_message_message s data mine :
  has_type "message" data = true ->
  JS.get (me s) "email" = Returned mine ->
  App.on_message (Json data) s
  = (Returned tt,
     if Spec.displayable data then
       set_messagesEl
         (messagesEl s
          ++ [Msg (field data "email") (field data "name") (field data "text")
                (field data "ts") (JS.strict_eq (field data "email") mine)])
         s
     else s).
Proof.
  intros Ht Hm.
  pose proof (has_type_get _ _ "type" Ht) as Gt.
  unfold has_type in Ht.
  unfold App.on_message, App.me_get, App.addMessage, Spec.displayable,
    JS.convertible. monad. simpl.
  rewrite Gt. simpl. rewrite Ht.
  rewrite !(has_type_get "message" data); [| by unfold has_type ..].
  simpl. rewrite Hm. simpl.
  destruct (JS.to_string _); destruct (JS.to_string _);
    by destruct (JS.to_textContent _).
Qed.

(** X7. An inbound message envelope that can be shown adds one entry to
    the transcript, with the sender, name, text and time of the envelope;
    one that cannot (its name, time or text has no string) is dropped; and
    nothing else on the page changes. The entry is marked as the user's own
    exactly when the envelope's email is strictly equal to the local
    identity's: for two strings, when they are the same string, letter
    case included. *)
Theorem inbound_message_entry s data mine :
  has_type "message" data = true ->
  JS.get (me s) "email" = Returned mine ->
  App.on_message (Json data) s
  = (Returned tt,
     if Spec.displayable data then
       set_messagesEl
         (messagesEl s
          ++ [Msg (field data "email") (field data "name") (field data "text")
                (field data "ts") (JS.strict_eq (field data "email") mine)])
         s
     else s)
  /\ (forall a b, field data "email" = VStr a -> mine = VStr b ->
        JS.strict_eq (field data "email") mine = true <-> a = b).
Proof.
  intros Ht Hm. split; [by apply on_message_message |].
  intros a b -> ->. simpl. apply String.eqb_eq.
Qed.

Lemma inbound_message_entry_witness :
  let s := Scenario.online in
  let data := VObj [("type", VStr "message"); ("email", VStr "b@x.com");
                    ("name", VStr "Bob"); ("text", VStr "hello");
                    ("ts", VNum 7)] in
  Spec.displayable data = true
  /\ App.on_message (Json data) s
     = (Returned tt,
        if Spec.displayable data then
          set_messagesEl
            (messagesEl s
             ++ [Msg (field data "email") (field data "name") (field data "text")
                   (field data "ts")
                   (JS.strict_eq (field data "email") (VStr "a@x.com"))])
            s
        else s)
  /\ (forall a b, field data "email" = VStr a -> VStr "a@x.com" = VStr b ->
        JS.strict_eq (field data "email") (VStr "a@x.com") = true <-> a = b).
Proof.
  intros s data. split; [reflexivity |].
  apply (inbound_message_entry s data (VStr "a@x.com")); reflexivity.
Defined.

(** A message whose name has no string leaves the transcript as it was. *)
Example message_without_string :
  step (WsMessage 0
          (Json (VObj [("type", VStr "message"); ("email", VStr "b@x.com");
                       ("name", VObj [("toString", VNum 1)]);
                       ("text", VStr "hello"); ("ts", VNum 7)])))
    Scenario.online
  = Some Scenario.online.
Proof. reflexivity. Qed.

(** X8. The inbound handler never throws, whatever the frame, and never
    sends, sets a timer, reports or touches the identity, the message
    input or the list; it changes the page at all only for a message or a
    search envelope, so a frame that does not parse, is not an object or
    has another type is dropped. *)
Theorem inbound_is_quiet frame s :
  exists s',
    App.on_message frame s = (Returned tt, s')
    /\ core s' = core s
    /\ (alerts s', messageInput s', onlineList s')
       = (alerts s, messageInput s, onlineList s)
    /\ (s' = s
        \/ exists data,
             frame = Json data
             /\ (has_type "message" data = true
                 \/ has_type "search" data = true)).
Proof.
  assert (forall data ty v,
            JS.get data "type" = Returned v -> JS.strict_eq v (VStr ty) = true ->
            has_type ty data = true) as Hty.
  { intros data ty v Hg Hv. unfold has_type, field. by rewrite Hg. }
  destruct frame as [| data]; [exists s; repeat split; by left |].
  unfold App.on_message, App.me_get, App.addMessage, App.fetchAndRenderOnline.
  monad. cases;
    (eexists; split; [reflexivity |]; split; [done |]; split; [done |]);
    try (by left); right; exists data; (split; [reflexivity |]); eauto.
Qed.

(** X9. Round trip: the envelope that a submit hands to the network,
    when the backend relays it back to the same page, becomes a
    transcript entry with the trimmed text and the identity's name,
    marked as the user's own (for an identity whose email is a string and
    whose name has a string). *)
Theorem message_round_trip s i es :
  ws s = Some i -> App.ws_is_open s = true ->
  JS.get (me s) "email" = Returned (VStr es) -> es <> "" ->
  JS.convertible (field (me s) "name") = true ->
  Str.trim (messageInput s) <> "" ->
  let s1 := after App.on_submit s in
  exists f,
    last (outbox s1) = Some f
    /\ messagesEl s1 = messagesEl s
    /\ step (WsMessage i (Json f)) s1
       = Some (set_messagesEl
                 (messagesEl s
                  ++ [Msg (VStr es) (field (me s) "name")
                        (VStr (Str.trim (messageInput s))) (VNum (now s))
                        true]) s1).
Proof.
  intros Hw Ho He Hne Hn Hx s1.
  assert (JS.truthy (VStr es) = true) as Ht by (by destruct es).
  pose proof (on_submit_open s (VStr es) Ho He Ht Hx) as E.
  set (f := JS.JSON_stringify _) in E.
  assert (s1 = set_messageInput "" (push f s)) as -> by (unfold s1, after; by rewrite E).
  exists f.
  assert (outbox (set_messageInput "" (push f s)) = outbox s ++ [f]) as Eo
    by (by apply (outbox_push f s)).
  split; [by rewrite Eo, last_snoc |].
  unfold App.ws_is_open, push in *. rewrite Hw in *.
  destruct (sockets s !! i) as [[[] out] |] eqn:Ei; try done.
  split; [done |].
  simpl. rewrite list_lookup_insert_eq by (by eapply lookup_lt_Some).
  f_equal.
  assert (has_type "message" f = true) as Hf by (by subst f; destruct (field (me s) "name")).
  unfold after.
  match goal with
  | |- (App.on_message _ ?st).2 = _ =>
      rewrite (on_message_message st f (VStr es) Hf He)
  end. simpl.
  assert (field f "email" = VStr es /\ field f "name" = field (me s) "name"
          /\ field f "text" = VStr (Str.trim (messageInput s))
          /\ field f "ts" = VNum (now s)) as (Ee & En & Ex & Es)
    by (by subst f; destruct (field (me s) "name")).
  assert (Spec.displayable f = true) as ->.
  { unfold Spec.displayable. rewrite Ee, En, Ex, Es.
    destruct (JS.truthy (field (me s) "name")); [by rewrite Hn | done]. }
  rewrite Ee, En, Ex, Es. simpl. by rewrite String.eqb_refl.
Qed.

Lemma message_round_trip_witness :
  let s := set_messageInput " hello " Scenario.online in
  let s1 := after App.on_submit s in
  exists f,
    last (outbox s1) = Some f
    /\ messagesEl s1 = messagesEl s
    /\ step (WsMessage 0 (Json f)) s1
       = Some (set_messagesEl
                 (messagesEl s
                  ++ [Msg (VStr "a@x.com") (field (me s) "name")
                        (VStr (Str.trim (messageInput s))) (VNum (now s))
                        true]) s1).
Proof.
  intros s.
  apply (message_round_trip s 0%nat "a@x.com"); try reflexivity.
  - discriminate.
  - vm_compute. discriminate.
Defined.

(** An identity whose name has no string sends what its own page cannot
    show: the envelope relayed back is dropped. *)
Example round_trip_without_string :
  let s := set_messageInput "hello"
             (set_me (VObj [("email", VStr "a@x.com");
                            ("name", VObj [("toString", VNum 1)])])
                Scenario.online) in
  exists s1 f,
    step Submit s = Some s1
    /\ last (outbox s1) = Some f
    /\ step (WsMessage 0 (Json f)) s1 = Some s1.
Proof. do 2 eexists. repeat split; reflexivity. Qed.

End Inbound.

(** ** Who writes the identity and the transcript *)

Section Writers.

Local Open Scope list_scope.

Lemma settle_kept filter r s : kept s (after (App.settle filter r) s).
Proof.
  unfold App.settle. monad.
  destruct (App.fetchOnline r) as [l | x]; [| done].
  destruct (renderOnline_sets_list l filter) as (o & shown & H).
  by rewrite H.
Qed.

Lemma on_open_kept s : kept s (after App.on_open s).
Proof.
  unfold App.on_open, App.me_get, App.ws_send, App.fetchAndRenderOnline.
  monad. cases.
Qed.

Lemma debounced_kept v s : kept s (after (App.debounced v) s).
Proof.
  unfold App.debounced, App.me_get, App.ws_send, App.fetchAndRenderOnline.
  monad. cases.
Qed.

Lemma on_submit_kept s : kept s (after App.on_submit s).
Proof.
  unfold App.on_submit, App.me_get, App.ws_send, App.alert. monad. cases.
Qed.

Lemma on_search_input_kept raw s : kept s (after (App.on_search_input raw) s).
Proof.
  unfold App.on_search_input, App.clearTimeout, App.setTimeout. monad. cases.
Qed.

Lemma on_interval_kept s : kept s (after App.on_interval s).
Proof. unfold App.on_interval, App.fetchAndRenderOnline. monad. cases. Qed.

Lemma on_search_focus_kept s : kept s (after App.on_search_focus s).
Proof. unfold App.on_search_focus, App.fetchAndRenderOnline. monad. cases. Qed.

Lemma on_member_click_kept e s : kept s (after (App.on_member_click e) s).
Proof. unfold App.on_member_click. monad. cases. Qed.

Lemma on_login_transcript em pw reply st s :
  messagesEl (after (App.on_login em pw reply st) s) = messagesEl s.
Proof.
  unfold App.on_login, App.me_get, App.me_set, App.connect, App.alert.
  monad. cases.
Qed.

Lemma step_kept e s s' :
  step e s = Some s' ->
  (is_login e = false -> me s' = me s)
  /\ (is_inbound e = false -> messagesEl s' = messagesEl s).
Proof.
  intros H.
  assert (kept s s' -> (is_login e = false -> me s' = me s)
                       /\ (is_inbound e = false -> messagesEl s' = messagesEl s))
    as Q by (by intros [? ?]).
  destruct e as [d | i | i frame | i | i | em pw reply st | raw | [] | k | | k r
                | | raw | k]; simpl in H.
  - destruct (0 <=? d); [| done]. injection H as <-. by apply Q.
  - destruct (sockets s !! i) as [[[] out] |]; try done. injection H as <-.
    apply Q. apply (on_open_kept (set_sockets _ s)).
  - destruct (sockets s !! i) as [[[] out] |]; try done. injection H as <-.
    split; [| done]. intros _.
    pose proof (on_message_core frame s) as E. unfold core in E.
    by injection E.
  - destruct (sockets s !! i) as [[[] out] |]; try done; injection H as <-;
      by apply Q.
  - destruct (sockets s !! i); [| done]. injection H as <-. by apply Q.
  - injection H as <-. split; [done |]. intros _. apply on_login_transcript.
  - destruct (memberSearch s); [| done]. injection H as <-.
    apply Q. apply (on_search_input_kept raw (set_memberSearch _ s)).
  - destruct (memberSearch s); [| done]. injection H as <-.
    apply Q. apply (on_search_focus_kept (set_searchFocused _ s)).
  - injection H as <-. by apply Q.
  - destruct (pending k s) as [t |]; [| done].
    destruct (due t <=? now s); [| done]. injection H as <-.
    apply Q. apply (debounced_kept _ (set_timers _ s)).
  - injection H as <-. apply Q, on_interval_kept.
  - destruct (fetches s !! k) as [f |]; [| done]. injection H as <-.
    apply Q. apply (settle_kept f r (set_fetches _ s)).
  - injection H as <-. apply Q, on_submit_kept.
  - injection H as <-. by apply Q.
  - destruct (onlineList s !! k) as [[| em nm] |]; try done.
    injection H as <-. apply Q, on_member_click_kept.
Qed.

(** X10. The identity is written by the login handler only: over any run
    of the page without a login reply, [me] stays what it was. *)
Theorem identity_only_login evs s s' :
  steps evs s = Some s' ->
  forallb (fun e => negb (is_login e)) evs = true ->
  me s' = me s.
Proof.
  revert s. induction evs as [| e evs IH]; intros s H Hc; simpl in H, Hc.
  - by injection H as <-.
  - destruct (step e s) as [s1 |] eqn:E; [| done].
    apply andb_true_iff in Hc as [He Hc]. apply negb_true_iff in He.
    rewrite (IH s1 H Hc). by apply (step_kept e s s1 E).
Qed.

Lemma identity_only_login_witness :
  me Scenario.online = me Scenario.joining.
Proof.
  apply (identity_only_login [WsOpen 0] Scenario.joining Scenario.online);
    reflexivity.
Defined.

(** X11. The transcript is written by inbound frames only: no submit,
    login, search or refresh adds to it or changes it, so a message is
    shown only once the backend has relayed it. *)
Theorem transcript_only_inbound evs s s' :
  steps evs s = Some s' ->
  forallb (fun e => negb (is_inbound e)) evs = true ->
  messagesEl s' = messagesEl s.
Proof.
  revert s. induction evs as [| e evs IH]; intros s H Hc; simpl in H, Hc.
  - by injection H as <-.
  - destruct (step e s) as [s1 |] eqn:E; [| done].
    apply andb_true_iff in Hc as [He Hc]. apply negb_true_iff in He.
    rewrite (IH s1 H Hc). by apply (step_kept e s s1 E).
Qed.

Lemma transcript_only_inbound_witness :
  messagesEl Scenario.online = messagesEl Scenario.fresh.
Proof.
  apply (transcript_only_inbound Scenario.connected Scenario.fresh
           Scenario.online); reflexivity.
Defined.

End Writers.

(** ** SessionStore: login, registration and restore *)

Section Session.

Local Open Scope list_scope.

Lemma assoc_set_same k x own : JS.assoc k (JS.assoc_set k x own) = Some x.
Proof.
  induction own as [| [k' v] own IH]; simpl.
  - by rewrite String.eqb_refl.
  - destruct (String.eqb k k') eqn:E; simpl; by rewrite ?String.eqb_refl, ?E.
Qed.

Lemma assoc_set_other k k' x own :
  k <> k' -> JS.assoc k' (JS.assoc_set k x own) = JS.assoc k' own.
Proof.
  intros Hne.
  assert (String.eqb k' k = false) as Hk
    by (destruct (String.eqb_spec k' k); [congruence | done]).
  induction own as [| [k0 v] own IH]; simpl.
  - by rewrite Hk.
  - destruct (String.eqb k k0) eqn:E; simpl.
    + apply String.eqb_eq in E as <-. by rewrite Hk.
    + by rewrite IH.
Qed.

(** X12. A login that is refused, locally (a blank email or password)
    or by the backend (the request is rejected, the status is not a
    success, or the JSON body does not parse), shows one alert and leaves
    everything else, the identity and the connections among it,
    untouched. *)
Theorem login_failure em pw reply st s :
  Str.trim em = "" \/ pw = ""
  \/ reply = App.LoginRejected
  \/ (exists json body, reply = App.LoginResponse false json body)
  \/ reply = App.LoginResponse true true Unparseable ->
  exists n,
    App.on_login em pw reply st s
    = (Returned tt, set_alerts (alerts s ++ [n]) s).
Proof.
  intros H. unfold App.on_login, App.alert. monad.
  destruct (Str.is_empty (Str.trim em) || Str.is_empty pw) eqn:Eb;
    [by eexists |].
  apply orb_false_iff in Eb as [E1 E2].
  destruct H as [H | [-> | [-> | [(json & body & ->) | ->]]]];
    try (by rewrite H in E1); try done; simpl; try by eexists.
  destruct json, body; simpl; by eexists.
Qed.

Lemma login_failure_witness :
  exists n,
    App.on_login "a@x.com" "secret" (App.LoginResponse false true
                                       (Json (VObj [("error", VStr "no")])))
      true Scenario.online
    = (Returned tt,
       set_alerts (alerts Scenario.online ++ [n]) Scenario.online).
Proof.
  apply (login_failure "a@x.com" "secret" _ true Scenario.online).
  right; right; right; left. by eexists _, _.
Defined.

(** X13. A login that the backend accepts takes the identity from the
    reply, not from the form: the email is the reply's, the name is its
    [display_name] or, when that is missing or empty, the part of the
    email before the first [@]. When the browser stores the record and the
    name has a string, a new connection is created and becomes the current
    one, and the sockets there were are left as they are, open ones
    included. Otherwise the identity has been overwritten all the same, but
    no connection is made and the failure is reported. *)
Theorem login_success em pw data e own st s :
  Str.trim em <> "" -> pw <> "" ->
  me s = VObj own ->
  JS.get data "email" = Returned (VStr e) ->
  let nm := if JS.truthy (field data "display_name")
            then field data "display_name"
            else VStr (Str.before_at e) in
  let s' := after (App.on_login em pw (App.LoginResponse true true (Json data)) st) s in
  field (me s') "email" = VStr e
  /\ field (me s') "name" = nm
  /\ if st && JS.convertible nm
     then sockets s' = sockets s ++ [Socket CONNECTING []]
          /\ ws s' = Some (length (sockets s))
          /\ alerts s' = alerts s
     else sockets s' = sockets s
          /\ ws s' = ws s
          /\ alerts s'
             = alerts s ++ [AlertFailure "Login failed: "
                              (if st then TypeError else QuotaExceededError)].
Proof.
  intros He Hp Hm Hd nm s'. subst s'.
  assert (JS.coercible data = true) as Hc by (by destruct data).
  assert (forall v, JS.to_string (VStr v) = Returned v) as Hs by done.
  assert (forall v : value,
            JS.assoc "email"
              (JS.assoc_set "name" v (JS.assoc_set "email" (VStr e) own))
            = Some (VStr e)) as Hx
    by (intros v; by rewrite assoc_set_other, assoc_set_same).
  unfold App.on_login, App.me_get, App.me_set, App.connect, App.alert. monad.
  destruct (Str.trim em); [done |]. destruct pw; [done |]. simpl.
  rewrite Hd. simpl. rewrite Hm. simpl.
  rewrite (get_coercible data "display_name" Hc). simpl.
  unfold JS.convertible. subst nm.
  destruct (JS.truthy (field data "display_name")); simpl; rewrite ?Hd; simpl;
    (destruct st; simpl;
     [| unfold field; simpl; by rewrite assoc_set_same, Hx]);
    rewrite assoc_set_same, Hx; simpl;
    repeat rewrite Hs; simpl;
    try (destruct (JS.to_string _) as [? | x] eqn:Ex;
         [| apply to_string_throws in Ex as ->]; simpl);
    unfold field; simpl;
    by rewrite assoc_set_same, Hx.
Qed.



Lemma login_success_witness :
  let data := VObj [("email", VStr "bob.stone@x.com")] in
  let s' := after (App.on_login " bob " "pw"
                     (App.LoginResponse true true (Json data)) true)
              Scenario.online in
  field (me s') "email" = VStr "bob.stone@x.com"
  /\ field (me s') "name" = VStr "bob.stone"
  /\ sockets s' = sockets Scenario.online ++ [Socket CONNECTING []]
  /\ ws s' = Some (length (sockets Scenario.online))
  /\ alerts s' = alerts Scenario.online.
Proof.
  intros data.
  apply (login_success " bob " "pw" data "bob.stone@x.com"
           [("email", VStr "a@x.com"); ("name", VStr "Alice")] true
           Scenario.online);
    try reflexivity; discriminate.
Defined.

(** A display name that has no string: Bob becomes the identity, the
    login is reported as failed, and the page stays on Alice's socket. *)
Example login_without_string :
  let data := VObj [("email", VStr "bob@x.com");
                    ("display_name", VObj [("toString", VNum 1)])] in
  let s' := after (App.on_login "bob@x.com" "pw"
                     (App.LoginResponse true true (Json data)) true)
              Scenario.online in
  field (me s') "email" = VStr "bob@x.com"
  /\ sockets s' = sockets Scenario.online
  /\ alerts s' = [AlertFailure "Login failed: " TypeError].
Proof. by repeat split. Qed.

(** X14. A reply with a success status whose content type is not JSON
    is a successful registration, but as a login it fails after the
    email of the identity has been overwritten with [undefined]: no
    connection is made, the failure is reported, and from then on the
    Composer asks the user to log in, whoever was logged in before. *)
Theorem plain_text_success_reply em pw dn body st own s :
  Str.trim em <> "" -> pw <> "" ->
  me s = VObj own ->
  let reply := App.LoginResponse true false body in
  let s' := after (App.on_login em pw reply st) s in
  Account.on_register em pw dn reply s
  = (Returned tt,
     set_alerts (alerts s ++ [Alert "Registration successful! Please login."]) s)
  /\ s' = set_alerts (alerts s ++ [AlertFailure "Login failed: " TypeError])
            (set_me (VObj (JS.assoc_set "email" VUndefined own)) s)
  /\ field (me s') "email" = VUndefined
  /\ App.on_submit s'
     = (Returned tt, set_alerts (alerts s' ++ [Alert "Please login first"]) s').
Proof.
  intros He Hp Hm reply s'.
  assert (s' = set_alerts (alerts s ++ [AlertFailure "Login failed: " TypeError])
                 (set_me (VObj (JS.assoc_set "email" VUndefined own)) s)) as E.
  { subst s' reply.
    unfold App.on_login, App.me_get, App.me_set, App.connect, App.alert. monad.
    destruct (Str.trim em); [done |]. destruct pw; [done |]. simpl.
    by rewrite Hm. }
  assert (field (me s') "email" = VUndefined) as Hu.
  { rewrite E. unfold field. simpl. by rewrite assoc_set_same. }
  split; [| split; [done | split; [done |]]].
  - subst reply. unfold Account.on_register, App.alert. monad.
    destruct (Str.trim em); [done |]. by destruct pw.
  - unfold App.on_submit, App.me_get, App.alert. monad.
    assert (JS.get (me s') "email" = Returned VUndefined) as ->.
    { rewrite E in Hu |- *. simpl in *. unfold field in Hu. simpl in Hu.
      by rewrite Hu. }
    done.
Qed.

Lemma plain_text_success_reply_witness :
  let s := Scenario.online in
  let reply := App.LoginResponse true false Unparseable in
  let s' := after (App.on_login "a@x.com" "secret" reply true) s in
  Account.on_register "a@x.com" "secret" "Alice" reply s
  = (Returned tt,
     set_alerts (alerts s ++ [Alert "Registration successful! Please login."]) s)
  /\ s' = set_alerts (alerts s ++ [AlertFailure "Login failed: " TypeError])
            (set_me (VObj (JS.assoc_set "email" VUndefined
                             [("email", VStr "a@x.com"); ("name", VStr "Alice")]))
               s)
  /\ field (me s') "email" = VUndefined
  /\ App.on_submit s'
     = (Returned tt, set_alerts (alerts s' ++ [Alert "Please login first"]) s').
Proof.
  intros s.
  apply (plain_text_success_reply "a@x.com" "secret" "Alice" Unparseable true
           [("email", VStr "a@x.com"); ("name", VStr "Alice")] s);
    try reflexivity; discriminate.
Defined.

(** X15. The restore trusts whatever the stored record parses to: that
    value becomes the identity. A connection is made for it unless it is
    [null] or its name or email has no string; without a record, or with
    one that does not parse, the page is left as it started. *)
Theorem restore_trusts_record t0 search saved :
  let b := App.boot t0 search saved in
  match saved with
  | Some (Json m) =>
      me b = m
      /\ if JS.coercible m
            && JS.convertible (field m "name")
            && JS.convertible (field m "email")
         then sockets b = [Socket CONNECTING []] /\ ws b = Some 0%nat
         else sockets b = [] /\ ws b = None
  | _ => b = App.initial t0 search
  end.
Proof.
  destruct saved as [[| m] |]; try done. simpl.
  unfold App.boot, App.restore, App.me_get, App.connect, JS.convertible, field.
  monad. simpl.
  destruct m; simpl; try done;
    repeat (destruct (JS.to_string _); simpl; try done).
Qed.

(** A stored record whose name has no string: the identity is restored
    and no connection is made. *)
Example restore_without_string :
  let record := VObj [("email", VStr "a@x.com");
                      ("name", VObj [("toString", VNum 1)])] in
  let b := App.boot 0 (Some "") (Some (Json record)) in
  me b = record /\ sockets b = [] /\ ws b = None.
Proof. by repeat split. Qed.

End Session.

(** ** ConnectionManager: what goes out, and when nothing can *)

Section Outbound.

Local Open Scope list_scope.

Lemma trimEnd_idem s : Str.trimEnd (Str.trimEnd s) = Str.trimEnd s.
Proof.
  induction s as [| c s IH]; [done |]. simpl.
  destruct (Str.is_space c && Str.is_empty (Str.trimEnd s)) eqn:E; [done |].
  simpl. by rewrite IH, E.
Qed.

Lemma trimStart_trimEnd s :
  Str.trimStart (Str.trimEnd (Str.trimStart s)) = Str.trimEnd (Str.trimStart s).
Proof.
  induction s as [| c s IH]; [done |]. simpl.
  destruct (Str.is_space c) eqn:E; [done |]. simpl. rewrite E. simpl.
  by rewrite E.
Qed.

Lemma trim_idem s : Str.trim (Str.trim s) = Str.trim s.
Proof. unfold Str.trim. by rewrite trimStart_trimEnd, trimEnd_idem. Qed.

Lemma all_sent_core s s' : core s' = core s -> all_sent s' = all_sent s.
Proof. unfold core, all_sent. by intros [= _ _ _ -> _ _ _]. Qed.

Lemma all_sent_push f s :
  Wf s ->
  all_sent (push f s) = all_sent s ++ (if App.ws_is_open s then [f] else []).
Proof.
  intros W. destruct (App.ws_is_open s) eqn:Eo.
  - destruct (push_open f s W Eo) as (before & out & Es & Ew & ->).
    unfold all_sent. simpl. rewrite Es, !fmap_app, !concat_app. simpl.
    by rewrite !app_nil_r, app_assoc.
  - by rewrite push_closed, app_nil_r.
Qed.

Lemma all_sent_restate i st out st' s :
  sockets s !! i = Some (Socket st out) ->
  all_sent (set_sockets (<[i := Socket st' out]> (sockets s)) s) = all_sent s.
Proof.
  intros Hi. unfold all_sent. simpl. rewrite list_fmap_insert. simpl.
  rewrite list_insert_id; [done |]. by rewrite list_lookup_fmap, Hi.
Qed.

Lemma offline_closed s : offline s -> App.ws_is_open s = false.
Proof.
  unfold offline, App.ws_is_open. destruct (ws s) as [i |]; [| done].
  by intros (out & ->).
Qed.

Lemma offline_core s s' : core s' = core s -> offline s -> offline s'.
Proof. unfold core, offline. by intros [= _ _ -> -> _ _ _]. Qed.

Lemma on_submit_message s :
  core (after App.on_submit s) = core s
  \/ exists f, is_message_frame f
               /\ core (after App.on_submit s) = core (push f s).
Proof.
  unfold App.on_submit, App.me_get, App.alert. monad.
  destruct (JS.get (me s) "email") as [e |]; [| by left].
  destruct (JS.truthy e) eqn:Ht; simpl; [| by left].
  destruct (Str.is_empty _) eqn:Ex; [by left |].
  destruct (JS.get (me s) "name") as [n |]; [| by left].
  destruct (App.ws_is_open s); [| by left].
  match goal with
  | |- context [App.ws_send ?f s] =>
      destruct (ws_send_push f s) as [-> | [x ->]]; [| by left]
  end.
  right. eexists. split; [| done].
  exists e, n, (Str.trim (messageInput s)), (now s).
  repeat split; [done | by destruct (Str.trim (messageInput s)) | apply trim_idem].
Qed.

Lemma debounced_search v s :
  core (after (App.debounced v) s) = core s
  \/ exists f, is_search_frame f
               /\ core (after (App.debounced v) s) = core (push f s).
Proof.
  unfold App.debounced, App.me_get, App.fetchAndRenderOnline. monad.
  destruct (App.ws_is_open s); simpl; [| by left].
  destruct (JS.get (me s) "email") as [e |]; [| by left].
  match goal with
  | |- context [App.ws_send ?f s] =>
      destruct (ws_send_push f s) as [-> | [x ->]]; [| by left]
  end.
  right. eexists. split; [by exists v, e | done].
Qed.

(** What a handler that may send one frame does to the logs. *)
Lemma sends_at_most s s1 (P : value -> Prop) :
  Wf s ->
  core s1 = core s \/ (exists f, P f /\ core s1 = core (push f s)) ->
  (exists new, all_sent s1 = all_sent s ++ new /\ Forall P new
               /\ (offline s -> new = [] /\ offline s1))
  /\ length (sockets s1) = length (sockets s) /\ ws s1 = ws s.
Proof.
  intros W [E | (f & Hf & E)].
  - split; [exists [] |].
    + rewrite app_nil_r. split; [by apply all_sent_core |].
      split; [done |]. intros O. split; [done | by eapply offline_core].
    + unfold core in E. by injection E as _ _ -> -> _ _ _.
  - split.
    + exists (if App.ws_is_open s then [f] else []).
      rewrite (all_sent_core _ _ E). split; [by apply all_sent_push |]. split.
      * destruct (App.ws_is_open s); by repeat constructor.
      * intros O. pose proof (offline_closed s O) as Ec. rewrite Ec.
        split; [done |]. eapply offline_core; [exact E |].
        by rewrite push_closed.
    + unfold core in E. injection E as _ _ -> -> _ _ _.
      unfold push. cases; by rewrite length_insert.
Qed.

Lemma step_sends e s s' :
  Inv s -> step e s = Some s' ->
  (exists new, all_sent s' = all_sent s ++ new /\ Forall outbound new
               /\ (offline s -> is_login e = false -> new = [] /\ offline s'))
  /\ (is_login e = false ->
      length (sockets s') = length (sockets s) /\ ws s' = ws s).
Proof.
  intros [W J] H.
  assert (forall s0 s1 P,
            (forall f, P f -> outbound f) ->
            Wf s0 -> all_sent s0 = all_sent s ->
            length (sockets s0) = length (sockets s) -> ws s0 = ws s ->
            (offline s -> offline s0) ->
            (core s1 = core s0 \/ exists f, P f /\ core s1 = core (push f s0)) ->
            (exists new, all_sent s1 = all_sent s ++ new /\ Forall outbound new
               /\ (offline s -> is_login e = false -> new = [] /\ offline s1))
            /\ (is_login e = false ->
                length (sockets s1) = length (sockets s) /\ ws s1 = ws s)) as Q.
  { intros s0 s1 P HP W0 Ea El Ew Ho Hc.
    destruct (sends_at_most s0 s1 P W0 Hc) as ((new & En & Hn & Hoff) & El1 & Ew1).
    split; [| intros _; split; congruence].
    exists new. rewrite En, Ea. split; [done |]. split.
    - eapply Forall_impl; [exact Hn | exact HP].
    - intros O _. by apply Hoff, Ho. }
  assert (forall s1, core s1 = core s ->
            (exists new, all_sent s1 = all_sent s ++ new /\ Forall outbound new
               /\ (offline s -> is_login e = false -> new = [] /\ offline s1))
            /\ (is_login e = false ->
                length (sockets s1) = length (sockets s) /\ ws s1 = ws s)) as Q0.
  { intros s1 E. apply (Q s s1 (fun _ => False)); try done. by left. }
  destruct e as [d | i | i frame | i | i | em pw reply st | raw | [] | k | | k r
                | | raw | k]; simpl in H.
  - destruct (0 <=? d); [| done]. injection H as <-.
    eapply (Q (set_now (now s + d) s) _ (fun _ => False));
      [done | by destruct W | done .. | by left].
  - (* WsOpen *)
    destruct (sockets s !! i) as [[[] out] |] eqn:Ei; try done.
    injection H as <-.
    eapply (Q (set_sockets (<[i := Socket OPEN out]> (sockets s)) s) _
              Spec.is_join).
    + intros f Hf. by left.
    + by eapply (restate_Wf i CONNECTING out OPEN s).
    + by eapply all_sent_restate.
    + simpl. by rewrite length_insert.
    + done.
    + unfold offline. simpl. destruct (ws s) as [j |]; [| done].
      intros (o & Hj). exists o.
      rewrite list_lookup_insert_ne; [done |]. intros <-. congruence.
    + destruct (on_open_effect (set_sockets (<[i := Socket OPEN out]> (sockets s)) s))
        as [E | (f & Hf & E)]; [by left | right; by exists f].
  - destruct (sockets s !! i) as [[[] out] |]; try done. injection H as <-.
    apply Q0, on_message_core.
  - (* WsClose *)
    destruct (sockets s !! i) as [[st out] |] eqn:Ei; [| done].
    assert (s' = set_sockets (<[i := Socket CLOSED out]> (sockets s)) s) as ->
      by (by destruct st; simplify_eq).
    eapply (Q (set_sockets (<[i := Socket CLOSED out]> (sockets s)) s) _
              (fun _ => False)).
    + done.
    + by eapply (restate_Wf i st out CLOSED s).
    + by eapply all_sent_restate.
    + simpl. by rewrite length_insert.
    + done.
    + unfold offline. simpl. destruct (ws s) as [j |]; [| done].
      intros (o & Hj). destruct (decide (i = j)) as [<- | Hne].
      * exists out. rewrite list_lookup_insert_eq; [done |].
        by eapply lookup_lt_Some.
      * exists o. by rewrite list_lookup_insert_ne.
    + by left.
  - destruct (sockets s !! i); [| done]. injection H as <-. by apply Q0.
  - (* LoginClick *)
    injection H as <-.
    destruct (on_login_effect em pw reply st s) as (_ & _ & Hs).
    split; [| done]. exists []. rewrite app_nil_r.
    split; [| split; [done | done]].
    unfold all_sent.
    destruct Hs as [[-> _] | (-> & _ & _)]; [done |].
    rewrite fmap_app, concat_app. simpl. by rewrite !app_nil_r.
  - (* SearchInput *)
    destruct (memberSearch s); [| done]. injection H as <-.
    set (s1 := set_memberSearch (Some raw) s).
    assert (Wf s1) as W1 by (by eapply Wf_core; [| exact W]).
    destruct (on_search_input_effect raw s1 W1) as ([= _ _ Ew Es] & _).
    split; [| intros _; by rewrite Es, Ew].
    exists []. rewrite app_nil_r. unfold all_sent, offline.
    rewrite Es, Ew. by repeat split.
  - destruct (memberSearch s); [| done]. injection H as <-.
    apply Q0. by rewrite on_search_focus_core.
  - injection H as <-. by apply Q0.
  - (* TimerFires *)
    destruct (pending k s) as [t |]; [| done].
    destruct (due t <=? now s); [| done]. injection H as <-.
    eapply (Q (set_timers (filter (fun t0 => tid t0 <> k) (timers s)) s) _
              is_search_frame).
    + intros f Hf. right. by left.
    + destruct W. constructor; simpl; try done.
      destruct wf_timers0 as [-> | (t0 & -> & ?)]; [by left |].
      rewrite filter_cons, filter_nil.
      destruct (decide _); [right; by eexists | by left].
    + done.
    + done.
    + done.
    + done.
    + apply debounced_search.
  - injection H as <-. apply Q0, on_interval_core.
  - destruct (fetches s !! k); [| done]. injection H as <-.
    apply Q0. by rewrite settle_core.
  - (* Submit *)
    injection H as <-.
    eapply (Q s _ is_message_frame); [| done .. |].
    + intros f Hf. right. by right.
    + apply on_submit_message.
  - injection H as <-. by apply Q0.
  - destruct (onlineList s !! k) as [[| em nm] |]; try done. injection H as <-.
    apply Q0, on_member_click_core.
Qed.

Lemma steps_reachable evs s s' :
  reachable s -> steps evs s = Some s' -> reachable s'.
Proof.
  revert s. induction evs as [| e evs IH]; intros s R H; simpl in H.
  - by injection H as <-.
  - destruct (step e s) as [s1 |] eqn:E; [| done].
    apply (IH s1); [| done]. by eapply reachable_step.
Qed.

(** X16. Everything the page ever hands to the network is one of its
    three envelopes: a join, a search, or a message whose sender email
    is truthy and whose text is trimmed and not empty. The client never
    sends a blank message or one without a sender. *)
Theorem every_frame_is_an_envelope s :
  reachable s -> Forall outbound (all_sent s).
Proof.
  induction 1 as [t0 search saved | s e s' R IH H].
  - unfold all_sent. destruct saved as [[| m] |]; try done.
    unfold App.boot, App.restore, App.me_get, App.connect. monad. simpl.
    destruct m; simpl; try done;
      repeat (destruct (JS.to_string _); simpl; try done).
  - destruct (step_sends e s s' (reachable_Inv s R) H)
      as ((new & -> & Hn & _) & _).
    by apply Forall_app.
Qed.

Lemma every_frame_is_an_envelope_witness :
  Forall outbound (all_sent Scenario.online).
Proof.
  apply (every_frame_is_an_envelope Scenario.online).
  apply (reachable_step Scenario.joining (WsOpen 0)); [| reflexivity].
  apply (reachable_step Scenario.fresh
           (LoginClick "a@x.com" "secret" Scenario.alice true));
    [apply reachable_boot | reflexivity].
Defined.

(** X17. The client never reconnects by itself. Over any run without a
    login reply no socket is created and [ws] keeps referring to the same
    one; and if that one has closed (or there is none), the page stays
    without a connection and sends nothing, whatever the user does. *)
Theorem no_reconnect evs s s' :
  reachable s -> steps evs s = Some s' ->
  forallb (fun e => negb (is_login e)) evs = true ->
  length (sockets s') = length (sockets s) /\ ws s' = ws s
  /\ (offline s -> offline s' /\ all_sent s' = all_sent s).
Proof.
  intros R. revert s R. induction evs as [| e evs IH]; intros s R H Hc;
    simpl in H, Hc.
  - by injection H as <-.
  - destruct (step e s) as [s1 |] eqn:E; [| done].
    apply andb_true_iff in Hc as [He Hc]. apply negb_true_iff in He.
    destruct (step_sends e s s1 (reachable_Inv s R) E)
      as ((new & En & _ & Ho) & Hl).
    destruct (Hl He) as [El Ew].
    destruct (IH s1 (reachable_step _ _ _ R E) H Hc) as (El' & Ew' & Ho').
    split; [congruence |]. split; [congruence |].
    intros O. destruct (Ho O He) as [-> O1]. rewrite app_nil_r in En.
    destruct (Ho' O1) as [? ?]. split; [done | congruence].
Qed.

Lemma no_reconnect_witness :
  let s := set_sockets [Socket CLOSED (sent Scenario.online_socket)]
             (set_messageInput "hello" Scenario.online) in
  exists s',
    steps [Submit; SearchInput "al"; Tick 200; TimerFires 1] s = Some s'
    /\ length (sockets s') = length (sockets s) /\ ws s' = ws s
    /\ (offline s -> offline s' /\ all_sent s' = all_sent s).
Proof.
  intros s. eexists. split; [vm_compute; reflexivity |].
  apply (no_reconnect [Submit; SearchInput "al"; Tick 200; TimerFires 1] s);
    [| vm_compute; reflexivity | reflexivity].
  apply (steps_reachable
           (Scenario.connected ++ [WsClose 0; MessageInput "hello"])
           Scenario.fresh); [apply reachable_boot | vm_compute; reflexivity].
Defined.

Lemma on_login_null em pw reply st s :
  JS.coercible (me s) = false ->
  me (after (App.on_login em pw reply st) s) = me s.
Proof.
  intros Hm.
  unfold App.on_login, App.me_get, App.me_set, App.connect, App.alert.
  monad. cases; by destruct (me s).
Qed.

(** X18. A stored record that is the JSON text [null] leaves the page
    with [null] for an identity, and no event repairs it: every later
    login fails on the assignment to the identity, so the page never has
    a connection again. *)
Theorem null_record_never_connects t0 search evs s :
  steps evs (App.boot t0 search (Some (Json VNull))) = Some s ->
  me s = VNull /\ sockets s = [] /\ ws s = None.
Proof.
  intros H.
  assert (reachable s) as R
    by (eapply steps_reachable; [apply reachable_boot | exact H]).
  assert (me s = VNull) as Hm.
  { assert (forall s0, me s0 = VNull -> steps evs s0 = Some s -> me s = VNull)
      as G.
    { clear H. induction evs as [| e evs IH]; intros s0 H0 H; simpl in H.
      - by injection H as <-.
      - destruct (step e s0) as [s1 |] eqn:E; [| done].
        apply (IH s1); [| done].
        destruct (is_login e) eqn:El.
        + destruct e; try discriminate. simpl in E. injection E as <-.
          rewrite on_login_null; [done | by rewrite H0].
        + rewrite <- H0. by apply (step_kept e s0 s1 E). }
    by apply (G (App.boot t0 search (Some (Json VNull)))). }
  destruct (reachable_Inv s R) as [W _].
  assert (sockets s = []) as Hs.
  { destruct (sockets s) eqn:E; [done |].
    assert (JS.coercible (me s) = true) as C by (apply (wf_me _ W); by rewrite E).
    by rewrite Hm in C. }
  split; [done |]. split; [done |].
  pose proof (wf_ws _ W) as Hw. destruct (ws s); [| done].
  by rewrite Hs in Hw.
Qed.

Lemma null_record_never_connects_witness :
  let s := after (App.on_login "a@x.com" "secret" Scenario.alice true)
             (App.boot 0 (Some "") (Some (Json VNull))) in
  me s = VNull /\ sockets s = [] /\ ws s = None.
Proof.
  intros s.
  apply (null_record_never_connects 0 (Some "") Scenario.login s).
  reflexivity.
Defined.

(** X19. The [open] listener sends on [ws], not on the socket that
    opened. When an older socket opens while the current one is still
    connecting, the send throws: the older socket is open from then on,
    no join envelope goes out on either, and the presence refresh that
    follows the join is skipped. *)
Theorem stale_open_is_silent s i j out out_j :
  ws s = Some j -> i <> j ->
  sockets s !! i = Some (Socket CONNECTING out) ->
  sockets s !! j = Some (Socket CONNECTING out_j) ->
  step (WsOpen i) s
  = Some (set_sockets (<[i := Socket OPEN out]> (sockets s)) s).
Proof.
  intros Hw Hne Hi Hj. simpl. rewrite Hi. f_equal.
  unfold App.on_open, App.me_get, App.ws_send. monad. simpl.
  destruct (JS.get (me s) "email"); [| done].
  destruct (JS.get (me s) "name"); [| done].
  by rewrite Hw, list_lookup_insert_ne, Hj.
Qed.

Lemma stale_open_is_silent_witness :
  step (WsOpen 0) Scenario.twice
  = Some (set_sockets (<[0%nat := Socket OPEN []]> (sockets Scenario.twice))
            Scenario.twice).
Proof.
  apply (stale_open_is_silent Scenario.twice 0%nat 1%nat [] []);
    try reflexivity. discriminate.
Defined.

(** X20. When an older socket opens after the current one has, the join
    envelope it triggers goes out on the current connection, which has
    then sent a join twice, and nothing goes out on the socket that
    opened. *)
Theorem stale_open_joins_again s i j out out_j :
  ws s = Some j -> i <> j ->
  sockets s !! i = Some (Socket CONNECTING out) ->
  sockets s !! j = Some (Socket OPEN out_j) ->
  JS.coercible (me s) = true ->
  step (WsOpen i) s
  = Some (set_fetches (fetches s ++ [VUndefined])
            (set_sockets
               (<[j := Socket OPEN
                         (out_j
                          ++ [JS.JSON_stringify
                                (App.join_envelope (field (me s) "email")
                                   (field (me s) "name") (now s))])]>
                  (<[i := Socket OPEN out]> (sockets s))) s)).
Proof.
  intros Hw Hne Hi Hj Hm. simpl. rewrite Hi. f_equal.
  unfold App.on_open, App.me_get, App.ws_send, App.fetchAndRenderOnline.
  monad. simpl. rewrite !(get_coercible _ _ Hm).
  by rewrite Hw, list_lookup_insert_ne, Hj.
Qed.

Lemma stale_open_joins_again_witness :
  let s := after App.on_open
             (set_sockets (<[1%nat := Socket OPEN []]> (sockets Scenario.twice))
                Scenario.twice) in
  step (WsOpen 0) s
  = Some (set_fetches (fetches s ++ [VUndefined])
            (set_sockets
               (<[1%nat := Socket OPEN
                         ([JS.JSON_stringify
                             (App.join_envelope (VStr "a@x.com") (VStr "Alice") 0)]
                          ++ [JS.JSON_stringify
                                (App.join_envelope (field (me s) "email")
                                   (field (me s) "name") (now s))])]>
                  (<[0%nat := Socket OPEN []]> (sockets s))) s)).
Proof.
  intros s.
  apply (stale_open_joins_again s 0%nat 1%nat []
           [JS.JSON_stringify
              (App.join_envelope (VStr "a@x.com") (VStr "Alice") 0)]);
    try reflexivity. discriminate.
Defined.

End Outbound.

(** ** SearchCoordinator: typing that never pauses *)

Section Pacing.

Local Open Scope list_scope.

Lemma paced_now evs :
  forall last s, Inv s -> paced last evs s = true -> now s < last + 180.
Proof.
  induction evs as [| e evs IH]; intros last s I H; simpl in H.
  - lia.
  - destruct (step e s) as [s1 |] eqn:E; [| done].
    destruct (step_Inv e s s1 I E) as (I1 & Hn & _).
    destruct (is_input e) eqn:Ei.
    + destruct e; try discriminate. apply andb_true_iff in H as [H _]. lia.
    + assert (paced last evs s1 = true) as H1 by (by destruct e).
      specialize (IH last s1 I1 H1). lia.
Qed.

Lemma paced_run evs :
  forall last s id q s1,
    Inv s -> timers s = [Timer id (last + 180) q] ->
    paced last evs s = true -> steps evs s = Some s1 ->
    sent_of_type "search" s1 = sent_of_type "search" s
    /\ exists t id' q', timers s1 = [Timer id' (t + 180) q']
                        /\ now s1 < t + 180.
Proof.
  induction evs as [| e evs IH]; intros last s id q s1 I Ht Hp H;
    simpl in H, Hp.
  - injection H as <-. split; [done |]. exists last, id, q. split; [done | lia].
  - pose proof (paced_now (e :: evs) last s I) as Hnow. simpl in Hnow.
    destruct (step e s) as [s2 |] eqn:E; [| done].
    specialize (Hnow Hp).
    destruct (step_Inv e s s2 I E) as (I2 & Hn & Hq).
    destruct (is_input e) eqn:Ei; [| destruct (is_fire e) eqn:Ef].
    + destruct e as [| | | | | | raw | | | | | | |]; try discriminate.
      apply andb_true_iff in Hp as [_ Hp].
      destruct (input_step raw s s2 I E) as (_ & En & Et2 & Es).
      rewrite <- Es. by eapply (IH (now s) s2).
    + destruct e as [| | | | | | | | k | | | | |]; try discriminate.
      destruct (fire_step k s s2 I E) as (tm & Et & _ & Hd & _).
      rewrite Et in Ht. injection Ht as ->. simpl in Hd. lia.
    + destruct (Hq eq_refl eq_refl) as (_ & Et & Es).
      assert (paced last evs s2 = true) as Hp2 by (by destruct e).
      rewrite <- Es. eapply (IH last s2 id q); try done. congruence.
Qed.

(** X21. As long as every change of the search field comes less than
    180 ms after the one before, however long that goes on, no search
    envelope is broadcast: at the end one timeout is still pending and
    not yet due. *)
Theorem typing_without_pause_sends_nothing s0 r0 sa evs s1 :
  reachable s0 ->
  step (SearchInput r0) s0 = Some sa ->
  paced (now s0) evs sa = true ->
  steps evs sa = Some s1 ->
  sent_of_type "search" s1 = sent_of_type "search" s0
  /\ exists t id q, timers s1 = [Timer id (t + 180) q] /\ now s1 < t + 180.
Proof.
  intros R E Hp H. pose proof (reachable_Inv s0 R) as I.
  destruct (input_step r0 s0 sa I E) as (Ia & En & Et & Es).
  rewrite <- Es.
  by eapply (paced_run evs (now s0) sa).
Qed.

Lemma typing_without_pause_sends_nothing_witness :
  let evs := [Tick 150; SearchInput "al"; Tick 150; SearchInput "ali";
              Tick 150; SearchInput "alic"; Tick 100] in
  exists sa s1,
    step (SearchInput "a") Scenario.online = Some sa
    /\ steps evs sa = Some s1
    /\ sent_of_type "search" s1 = sent_of_type "search" Scenario.online
    /\ exists t id q, timers s1 = [Timer id (t + 180) q] /\ now s1 < t + 180.
Proof.
  intros evs. eexists _, _.
  split; [vm_compute; reflexivity |]. split; [vm_compute; reflexivity |].
  eapply (typing_without_pause_sends_nothing Scenario.online "a" _ evs);
    [| vm_compute; reflexivity ..].
  apply (reachable_step Scenario.joining (WsOpen 0)); [| reflexivity].
  apply (reachable_step Scenario.fresh
           (LoginClick "a@x.com" "secret" Scenario.alice true));
    [apply reachable_boot | reflexivity].
Defined.

End Pacing.

(** ** The address of the backend *)

Section Address.

(** X22. Unless an override is given, the backend is taken to be on the
    page's own host at port 8080, except for a page served from the
    default port, where the page's origin is used: for a page whose
    origin is its protocol, host name and port, as it is over HTTP, the
    test for port 8080 changes nothing. An override that is declared
    always wins, and the window-level one only if it is truthy. *)
Theorem API_BASE_targets_8080 explicit global loc :
  Config.origin loc
  = Config.protocol loc +:+ "//" +:+ Config.hostname loc
    +:+ (if Str.is_empty (Config.port loc) then ""
         else ":" +:+ Config.port loc) ->
  Config.API_BASE explicit global loc
  = if negb (JS.is_undefined explicit) then explicit
    else if JS.truthy global then global
    else VStr (Config.protocol loc +:+ "//" +:+ Config.hostname loc
               +:+ (if Str.is_empty (Config.port loc) then "" else ":8080")).
Proof.
  intros Ho. unfold Config.API_BASE, Config.derived.
  destruct (negb _); [done |]. destruct (JS.truthy global); [done |].
  f_equal. rewrite Ho.
  destruct (Str.is_empty (Config.port loc)) eqn:Ee; simpl; [done |].
  destruct (String.eqb_spec (Config.port loc) "8080") as [-> | _]; done.
Qed.

Lemma API_BASE_targets_8080_witness :
  let loc := Config.Location "http:" "localhost" "5500" "http://localhost:5500" in
  Config.API_BASE VUndefined VUndefined loc
  = if negb (JS.is_undefined VUndefined) then VUndefined
    else if JS.truthy VUndefined then VUndefined
    else VStr (Config.protocol loc +:+ "//" +:+ Config.hostname loc
               +:+ (if Str.is_empty (Config.port loc) then "" else ":8080")).
Proof.
  intros loc. apply (API_BASE_targets_8080 VUndefined VUndefined loc).
  reflexivity.
Defined.

End Address.
